(** * jfkfilescraper: the download-and-integrity pipeline of [src/index.js]

    A shallow embedding of the scraper's core: [getPdfLinks],
    [getBatchFolder], [generateChecksum], [downloadPdf], [downloadAllPdfs]
    and [verifyChecksums].

    The program is a single-threaded JavaScript process.  Its only
    concurrency is cooperative: [downloadAllPdfs] calls [downloadPdf] on the
    (up to five) members of a chunk, each call running until its first
    [await], and then waits on [Promise.all]; the pending calls are resumed
    one at a time, in an order chosen by the environment, each resumption
    running until the next [await] of that call.  The embedding keeps exactly
    this structure: a [state] (disk, the two shared in-memory accumulators,
    an event trace), a [task] per pending call with the [await] it is
    suspended on, the environment's answer to every [await] (a [response]
    per sequence position) and a schedule that orders the resumptions.

    What lies outside the model: the MD5 function itself (a parameter
    [md5]), the HTML parsing of the listing page (the matched [href]s are an
    input), and exceptions that escape the functions altogether
    ([ensureDirSync], [readJsonSync] and the final [writeJsonSync] throwing).
    Every [await] is assumed to settle: a schedule may order the resumptions
    of a chunk in any way, but no call is left pending for ever.

    The file has three parts: the embedding, the vocabulary of the
    statements with the sample inputs, and the proofs.  The theorems that
    settle a claim of the specification carry its number (C1 .. C10) in
    their comment. *)

From Stdlib Require Import Ascii.
From stdpp Require Import gmap strings list pretty.

Local Open Scope string_scope.
Local Open Scope list_scope.
Local Open Scope nat_scope.

(** ** Data *)

Abbreviation bytes := (list Byte.byte).

(** One element of [indexData] (an object of [index.json]). *)
Record index_entry := IndexEntry {
  e_fileName : string;
  e_url : string;
  e_size : nat;
  e_checksum : string }.

(** Observable actions, in the order in which the process performs them. *)
Inductive event :=
  | EvPageError                          (* console.error: Error fetching page *)
  | EvCall (idx : nat)                   (* downloadPdf(url, idx, ..) is invoked *)
  | EvSkip (fileName : string)           (* log: [SKIP] .. already exists *)
  | EvGet (url : string)                 (* axios GET request issued *)
  | EvDone (fileName : string)           (* log: [DONE] *)
  | EvHash (filePath : string * string)  (* generateChecksum opens filePath *)
  | EvSaveChecksums                      (* checksums.json rewritten *)
  | EvError (fileName : string)          (* console.error: Failed to download *)
  | EvSettle (idx : nat)                 (* the promise of that call settles *)
  | EvSaveIndex                          (* index.json rewritten *)
  | EvNoChecksums                        (* log: No checksums found *)
  | EvReaddir                            (* readdirSync(DOWNLOAD_DIR) *)
  | EvMissing (fileName : string)        (* log: Missing file *)
  | EvCorrupted (fileName : string)      (* log: [CORRUPTED] *)
  | EvOk (fileName : string).            (* log: [OK] *)

(** The download directory and the process memory of one run.  A stored
    file lives at [(folder, fileName)] below [DOWNLOAD_DIR]; [dirs] lists the
    sub-directories in the order [readdirSync] reports them.  The two JSON
    files are kept as the values they serialise. *)
Record state := State {
  dirs : list string;
  files : gmap (string * string) bytes;
  checksum_file : option (gmap string string);
  index_file : option (list index_entry);
  checksums : gmap string string;
  indexData : list index_entry;
  trace : list event }.

Definition log (e : event) (s : state) : state :=
  State (dirs s) (files s) (checksum_file s) (index_file s)
        (checksums s) (indexData s) (trace s ++ [e]).

Definition ensureDirSync (d : string) (s : state) : state :=
  if decide (d ∈ dirs s) then s
  else State (dirs s ++ [d]) (files s) (checksum_file s) (index_file s)
             (checksums s) (indexData s) (trace s).

Definition existsSync (p : string * string) (s : state) : bool :=
  bool_decide (is_Some (files s !! p)).

Definition write_file (p : string * string) (b : bytes) (s : state) : state :=
  State (dirs s) (<[p := b]> (files s)) (checksum_file s) (index_file s)
        (checksums s) (indexData s) (trace s).

Definition set_checksum (fileName digest : string) (s : state) : state :=
  State (dirs s) (files s) (checksum_file s) (index_file s)
        (<[fileName := digest]> (checksums s)) (indexData s) (trace s).

Definition push_index (e : index_entry) (s : state) : state :=
  State (dirs s) (files s) (checksum_file s) (index_file s)
        (checksums s) (indexData s ++ [e]) (trace s).

Definition save_checksums (s : state) : state :=
  State (dirs s) (files s) (Some (checksums s)) (index_file s)
        (checksums s) (indexData s) (trace s).

Definition save_index (s : state) : state :=
  State (dirs s) (files s) (checksum_file s) (Some (indexData s))
        (checksums s) (indexData s) (trace s).

(** ** path.basename (POSIX): the last segment, trailing slashes ignored *)

Definition is_slash (c : Ascii.ascii) : bool := bool_decide (c = "/"%char).

Fixpoint skip_slashes (l : list Ascii.ascii) : list Ascii.ascii :=
  match l with
  | c :: r => if is_slash c then skip_slashes r else l
  | [] => []
  end.

Fixpoint until_slash (l : list Ascii.ascii) : list Ascii.ascii :=
  match l with
  | c :: r => if is_slash c then [] else c :: until_slash r
  | [] => []
  end.

Definition basename (p : string) : string :=
  String.string_of_list_ascii
    (rev (until_slash (skip_slashes (rev (String.list_ascii_of_string p))))).

(** ** getPdfLinks

    [page] is what the listing request produced: the [href]s matched by the
    selector, or [None] when the request or the parsing threw. *)

Definition absolute (href : string) : string :=
  if String.prefix "/" href then "https://www.archives.gov" +:+ href else href.

Definition getPdfLinks (page : option (list string)) (s : state)
  : list string * state :=
  match page with
  | Some hrefs => (absolute <$> hrefs, s)
  | None => ([], log EvPageError s)
  end.

(** The list [getPdfLinks] returns, whatever the state. *)
Definition pdfLinks (page : option (list string)) : list string :=
  match page with
  | Some hrefs => absolute <$> hrefs
  | None => []
  end.

(** ** getBatchFolder *)

Definition batchSize : nat := 500.

Definition batchNumber (idx : nat) : nat := idx / batchSize + 1.

Definition batchFolder (idx : nat) : string := "Batch_" +:+ pretty (batchNumber idx).

Definition getBatchFolder (idx : nat) (s : state) : string * state :=
  (batchFolder idx, ensureDirSync (batchFolder idx) s).

(** The partition number as section 4.1 of the specification words it, for
    comparison with [batchNumber]. *)
Definition spec_partitionNumber (sequenceIndex : nat) : nat :=
  (sequenceIndex - 1) / 500 + 1.

(** ** The environment of one download *)

Inductive write_result :=
  | WriteFinish                              (* writer emits 'finish' *)
  | WriteError (left_behind : option bytes). (* writer emits 'error'; the file,
                                                if it was opened, holds this *)

Record response := Response {
  r_fetch : option bytes;   (* body streamed by axios, None: the request rejects *)
  r_write : write_result;
  r_hash : bool;            (* the read stream of generateChecksum does not fail *)
  r_stat : bool;            (* statSync does not throw *)
  r_save : bool }.          (* writeJsonSync(CHECKSUM_FILE) does not throw *)

(** The [await] a pending call of [downloadPdf] is suspended on. *)
Inductive stage := AwaitFetch | AwaitWrite | AwaitHash | Settled.

Record task := Task { t_url : string; t_idx : nat; t_stage : stage }.

Definition t_fileName (t : task) : string := basename (t_url t).
Definition t_filePath (t : task) : string * string :=
  (batchFolder (t_idx t), t_fileName t).
Definition at_stage (g : stage) (t : task) : task := Task (t_url t) (t_idx t) g.

Section Pipeline.

(** The digest function behind [crypto.createHash('md5')]. *)
Variable md5 : bytes → string.

(** ** generateChecksum: [None] when the promise rejects *)
Definition generateChecksum (readable : bool) (filePath : string * string)
    (s : state) : option string :=
  if readable then md5 <$> files s !! filePath else None.

(** ** downloadPdf *)

(** The [catch] block. *)
Definition failed (t : task) (s : state) : state * task :=
  (log (EvSettle (t_idx t)) (log (EvError (t_fileName t)) s), at_stage Settled t).

(** The call itself, up to the first [await] (or the early [return]). *)
Definition downloadPdf (url : string) (idx : nat) (s : state) : state * task :=
  let fileName := basename url in
  let '(batchFolder, s) := getBatchFolder idx (log (EvCall idx) s) in
  let filePath := (batchFolder, fileName) in
  if existsSync filePath s then
    (log (EvSettle idx) (log (EvSkip fileName) s), Task url idx Settled)
  else
    (log (EvGet url) s, Task url idx AwaitFetch).

(** One resumption: the awaited promise of [t] settles as [r] says, and the
    call runs on to its next [await] or to its end.

    The write stream is created when the request resolves, but what the
    file holds is decided when the writer finishes or fails, so the file is
    written at that step; in between nobody looks at it (the existence
    checks of a chunk are all made before its first resumption, those of the
    next chunk after its last).  A call only reaches [AwaitWrite] when
    [r_fetch] gave a body.  [checksums[fileName] = checksum] is an insertion
    into a map: the keys are file names, which end in [.pdf]. *)
Definition downloadPdf_resume (r : response) (t : task) (s : state)
  : state * task :=
  match t_stage t with
  | Settled => (s, t)
  | AwaitFetch =>
      match r_fetch r with
      | None => failed t s
      | Some _ => (s, at_stage AwaitWrite t)
      end
  | AwaitWrite =>
      match r_write r with
      | WriteFinish =>
          (log (EvHash (t_filePath t))
             (log (EvDone (t_fileName t))
                (write_file (t_filePath t) (default [] (r_fetch r)) s)),
           at_stage AwaitHash t)
      | WriteError (Some partial) => failed t (write_file (t_filePath t) partial s)
      | WriteError None => failed t s
      end
  | AwaitHash =>
      match generateChecksum (r_hash r) (t_filePath t) s with
      | None => failed t s
      | Some checksum =>
          let s := set_checksum (t_fileName t) checksum s in
          match (if r_stat r then files s !! t_filePath t else None) with
          | None => failed t s
          | Some content =>
              let s := push_index
                         (IndexEntry (t_fileName t) (t_url t) (length content) checksum) s in
              if r_save r then
                (log (EvSettle (t_idx t)) (log EvSaveChecksums (save_checksums s)),
                 at_stage Settled t)
              else failed t s
          end
      end
  end.

(** ** downloadAllPdfs *)

Definition CHUNK_SIZE : nat := 5.

Definition slice {A} (i j : nat) (l : list A) : list A := take (j - i) (drop i l).

(** [.map((url, idx) => downloadPdf(url, i + idx + 1, ..))]: the calls are made
    one after the other, none is resumed in between. *)
Fixpoint map_downloadPdf (i idx : nat) (chunk : list string)
    (c : state * list task) : state * list task :=
  match chunk with
  | [] => c
  | url :: rest =>
      let '(s, t) := downloadPdf url (i + idx + 1) c.1 in
      map_downloadPdf i (S idx) rest (s, c.2 ++ [t])
  end.

(** The environment resumes the call in slot [k] of the chunk. *)
Definition resume_slot (env : nat → response) (c : state * list task) (k : nat)
  : state * list task :=
  match c.2 !! k with
  | Some t =>
      let '(s, t') := downloadPdf_resume (env (t_idx t)) t c.1 in
      (s, <[k := t']> c.2)
  | None => c
  end.

(** Every [await] settles: once the given schedule is used up the calls still
    pending are resumed slot by slot until all have settled (a call has at
    most three [await]s). *)
Definition drain (n : nat) : list nat := seq 0 n ++ seq 0 n ++ seq 0 n.

(** [await Promise.all(chunk)] under the schedule [sched]. *)
Definition promise_all (env : nat → response) (sched : list nat)
    (c : state * list task) : state * list task :=
  fold_left (resume_slot env) (sched ++ drain (length c.2)) c.

(** The [for] loop; [fuel] bounds the number of iterations, and
    [length pdfLinks] of it is enough ([chunk_loop_fuel] below). *)
Fixpoint chunk_loop (fuel : nat) (pdfLinks : list string) (env : nat → response)
    (scheds : list (list nat)) (i : nat) (s : state) : state :=
  match fuel with
  | 0 => s
  | S fuel =>
      if decide (i < length pdfLinks) then
        let chunk := map_downloadPdf i 0 (slice i (i + CHUNK_SIZE) pdfLinks) (s, []) in
        let c := promise_all env (hd [] scheds) chunk in
        chunk_loop fuel pdfLinks env (tl scheds) (i + CHUNK_SIZE) c.1
      else s
  end.

(** What the outside world does during one run. *)
Record run_env := RunEnv {
  page : option (list string);
  responses : nat → response;
  schedules : list (list nat) }.

(** A run starts with fresh locals ([indexData], [checksums]) and, here, a
    fresh trace. *)
Definition downloadAllPdfs (e : run_env) (s : state) : state :=
  let '(pdfLinks, s) :=
    getPdfLinks (page e)
      (State (dirs s) (files s) (checksum_file s) (index_file s) ∅ [] []) in
  let s := State (dirs s) (files s) (checksum_file s) (index_file s)
                 (default ∅ (checksum_file s)) [] (trace s) in
  let s := chunk_loop (length pdfLinks) pdfLinks (responses e) (schedules e) 0 s in
  log EvSaveIndex (save_index s).

(** ** verifyChecksums *)

Definition readdirSync (s : state) : list string :=
  dirs s ++ match index_file s with Some _ => ["index.json"] | None => [] end
         ++ match checksum_file s with Some _ => ["checksums.json"] | None => [] end.

(** The inner [for .. of batchFolders] with its [break]. *)
Fixpoint find_file (fileName : string) (batchFolders : list string) (s : state)
  : option (string * string) :=
  match batchFolders with
  | [] => None
  | batchFolder :: rest =>
      if existsSync (batchFolder, fileName) s then Some (batchFolder, fileName)
      else find_file fileName rest s
  end.

Definition list_batchFolders (s : state) : list string :=
  filter (λ folder, String.prefix "Batch_" folder) (readdirSync s).

Inductive verdict :=
  | NoChecksums                               (* early return *)
  | Rejected                                  (* generateChecksum rejected *)
  | Completed (corruptedFiles : list string).

(** The outer loop over [Object.entries(checksums)]. *)
Fixpoint verify_entries (readable : string * string → bool)
    (entries : list (string * string)) (corruptedFiles : list string)
    (s : state) : state * verdict :=
  match entries with
  | [] => (s, Completed corruptedFiles)
  | (fileName, originalHash) :: rest =>
      let batchFolders := list_batchFolders s in
      let s := log EvReaddir s in
      match find_file fileName batchFolders s with
      | None =>
          verify_entries readable rest (corruptedFiles ++ [fileName])
            (log (EvMissing fileName) s)
      | Some filePath =>
          let s := log (EvHash filePath) s in
          match generateChecksum (readable filePath) filePath s with
          | None => (s, Rejected)
          | Some newHash =>
              if decide (newHash ≠ originalHash) then
                verify_entries readable rest (corruptedFiles ++ [fileName])
                  (log (EvCorrupted fileName) s)
              else
                verify_entries readable rest corruptedFiles (log (EvOk fileName) s)
          end
      end
  end.

Definition verifyChecksums (readable : string * string → bool) (s : state)
  : state * verdict :=
  let s := State (dirs s) (files s) (checksum_file s) (index_file s)
                 (checksums s) (indexData s) [] in
  match checksum_file s with
  | None => (log EvNoChecksums s, NoChecksums)
  | Some checksums => verify_entries readable (map_to_list checksums) [] s
  end.

(** The state in which the loop of a run starts, and the one in which it
    ends (before [index.json] is written). *)
Definition start_state (e : run_env) (s : state) : state :=
  State (dirs s) (files s) (checksum_file s) (index_file s)
        (default ∅ (checksum_file s)) []
        (match page e with Some _ => [] | None => [EvPageError] end).

Definition loop_end (e : run_env) (s : state) : state :=
  chunk_loop (length (pdfLinks (page e))) (pdfLinks (page e)) (responses e)
             (schedules e) 0 (start_state e s).

(** Several runs, one after the other, on the same download directory. *)
Definition downloadAllPdfs_again (es : list run_env) (s : state) : state :=
  fold_left (λ s e, downloadAllPdfs e s) es s.

(** ** Vocabulary of the statements *)

(** The durable ChecksumStore: the content of [checksums.json], empty when
    the file is absent. *)
Definition stored_checksums (s : state) : gmap string string :=
  default ∅ (checksum_file s).

Definition settled (t : task) : Prop := t_stage t = Settled.

(** The awaits a call still has before it. *)
Definition rank (g : stage) : nat :=
  match g with AwaitFetch => 3 | AwaitWrite => 2 | AwaitHash => 1 | Settled => 0 end.

Definition ranks_below (b : nat) (ts : list task) : Prop :=
  Forall (λ t, rank (t_stage t) ≤ b) ts.

(** [m] has every key of [M0], and on the names outside [names] also its
    values. *)
Definition keeps (names : list string) (M0 m : gmap string string) : Prop :=
  dom M0 ⊆ dom m ∧ ∀ name, name ∉ names → m !! name = M0 !! name.

(** Nothing in [s] has been done for the file name [fileName] in this run:
    no entry, no record, no request and no hash. *)
Definition untouched (fileName : string) (s : state) : Prop :=
  checksums s !! fileName = None ∧
  stored_checksums s !! fileName = None ∧
  (∀ en, en ∈ indexData s → e_fileName en ≠ fileName) ∧
  (∀ url, EvGet url ∈ trace s → basename url ≠ fileName) ∧
  (∀ p, EvHash p ∈ trace s → p.2 ≠ fileName).

(** In the run [e], the name [fileName] only occurs at positions whose
    folder is [folder]. *)
Definition reached_in (folder fileName : string) (e : run_env) : Prop :=
  ∀ i url, pdfLinks (page e) !! i = Some url → basename url = fileName →
           batchFolder (i + 1) = folder.

(** The events logged since the trace had length [n]. *)
Definition events_since (n : nat) (s : state) : list event := drop n (trace s).

(** Counting events, and the calls that have not settled. *)
Definition is_call (e : event) : bool :=
  match e with EvCall _ => true | _ => false end.
Definition is_settle (e : event) : bool :=
  match e with EvSettle _ => true | _ => false end.

Fixpoint count (f : event → bool) (tr : list event) : nat :=
  match tr with
  | [] => 0
  | e :: tr => (if f e then 1 else 0) + count f tr
  end.

Definition call_index (e : event) : option nat :=
  match e with EvCall idx => Some idx | _ => None end.

Definition pending (t : task) : nat :=
  match t_stage t with Settled => 0 | _ => 1 end.

Definition in_flight (ts : list task) : nat := sum_list_with pending ts.

(** The chunk of the resource at the 1-based position [idx]. *)
Definition group_of (idx : nat) : nat := (idx - 1) / CHUNK_SIZE.

(** The loop invariant behind the barrier: the calls so far are those of
    positions [1 .. i + length ts], every call of an earlier chunk and every
    settled call of this one has logged its settling, and at every moment of
    the past between zero and [CHUNK_SIZE] calls were in flight. *)
Definition barrier_inv (L : list string) (i : nat) (s : state) (ts : list task)
  : Prop :=
  i `mod` CHUNK_SIZE = 0 ∧
  omap call_index (trace s) = seq 1 ((i + length ts) `min` length L) ∧
  (∀ j, 1 ≤ j ≤ i → j ≤ length L → EvSettle j ∈ trace s) ∧
  (∀ k t, ts !! k = Some t → settled t → EvSettle (t_idx t) ∈ trace s) ∧
  count is_call (trace s) = count is_settle (trace s) + in_flight ts ∧
  (∀ p, p `prefix_of` trace s →
        count is_settle p ≤ count is_call p ≤ count is_settle p + CHUNK_SIZE) ∧
  (∀ p i' j, p ++ [EvCall j] `prefix_of` trace s → 1 ≤ i' →
             group_of i' < group_of j → EvSettle i' ∈ p).

(** The events a call of [downloadPdf] at position [idx] for [url] can log. *)
Definition event_of (url : string) (idx : nat) (e : event) : Prop :=
  e = EvCall idx ∨ e = EvSkip (basename url) ∨ e = EvGet url ∨
  e = EvDone (basename url) ∨ e = EvHash (batchFolder idx, basename url) ∨
  e = EvSaveChecksums ∨ e = EvError (basename url) ∨ e = EvSettle idx.

Definition log_all (es : list event) (s : state) : state :=
  State (dirs s) (files s) (checksum_file s) (index_file s)
        (checksums s) (indexData s) (trace s ++ es).

(** What one iteration of the verification loop logs for an entry, and the
    name it pushes on [corruptedFiles], read off the disk. *)
Definition entry_report (s : state) (entry : string * string) : list event :=
  match find_file entry.1 (list_batchFolders s) s with
  | None => [EvReaddir; EvMissing entry.1]
  | Some filePath =>
      [EvReaddir; EvHash filePath;
       if decide (md5 <$> files s !! filePath = Some entry.2)
       then EvOk entry.1 else EvCorrupted entry.1]
  end.

Definition entry_problem (s : state) (entry : string * string) : option string :=
  match find_file entry.1 (list_batchFolders s) s with
  | None => Some entry.1
  | Some filePath =>
      if decide (md5 <$> files s !! filePath = Some entry.2)
      then None else Some entry.1
  end.

(** The tasks of the chunk that starts at offset [i] of [L], as far as they
    have been launched. *)
Definition chunk_tasks (L : list string) (i : nat) (ts : list task) : Prop :=
  length ts ≤ CHUNK_SIZE ∧
  ∀ j t, ts !! j = Some t → t_idx t = i + j + 1 ∧ L !! (i + j) = Some (t_url t).

(** ** What a run achieves, position by position

    What the answers [r] of the environment let a download attain: the
    content left at its path, the body that was written in full, hashed,
    recorded in [indexData], saved with [checksums.json]. *)

Definition left_on_disk (r : response) : option bytes :=
  match r_fetch r with
  | None => None
  | Some body =>
      match r_write r with WriteFinish => Some body | WriteError remains => remains end
  end.

Definition written (r : response) : option bytes :=
  match r_fetch r, r_write r with
  | Some body, WriteFinish => Some body
  | _, _ => None
  end.

Definition hashed (r : response) : option bytes :=
  if r_hash r then written r else None.

Definition recorded (r : response) : option bytes :=
  if r_stat r then hashed r else None.

Definition saved (r : response) : option bytes :=
  if r_save r then recorded r else None.

Definition entry_of (url : string) (r : response) : option index_entry :=
  (λ body, IndexEntry (basename url) url (length body) (md5 body)) <$> recorded r.

Definition no_record (fileName : string) (s : state) : Prop :=
  ∀ en, en ∈ indexData s → e_fileName en ≠ fileName.

(** Relative to the state [s0] in which the run started: nothing has
    happened yet for the resource [url] at position [idx]. *)
Definition not_yet (s0 s : state) (url : string) (idx : nat) : Prop :=
  files s !! (batchFolder idx, basename url)
    = files s0 !! (batchFolder idx, basename url) ∧
  checksums s !! basename url = stored_checksums s0 !! basename url ∧
  no_record (basename url) s.

(** Its download, started because no file was there, has come to its end. *)
Definition outcome (e : run_env) (s0 s : state) (url : string) (idx : nat) : Prop :=
  files s !! (batchFolder idx, basename url) = left_on_disk (responses e idx) ∧
  checksums s !! basename url =
    match hashed (responses e idx) with
    | Some body => Some (md5 body)
    | None => stored_checksums s0 !! basename url
    end ∧
  (∀ en, e_fileName en = basename url →
         (en ∈ indexData s ↔ entry_of url (responses e idx) = Some en)) ∧
  (∀ body, saved (responses e idx) = Some body →
           stored_checksums s !! basename url = Some (md5 body)) ∧
  (saved (responses e idx) = None → EvError (basename url) ∈ trace s).

(** The state of affairs for one position, by the stage of its call
    ([None]: not called yet). *)
Definition pos_inv (e : run_env) (s0 s : state) (url : string) (idx : nat)
    (st : option stage) : Prop :=
  match st with
  | None => not_yet s0 s url idx
  | Some AwaitFetch =>
      files s0 !! (batchFolder idx, basename url) = None ∧ not_yet s0 s url idx
  | Some AwaitWrite =>
      files s0 !! (batchFolder idx, basename url) = None ∧ not_yet s0 s url idx ∧
      is_Some (r_fetch (responses e idx))
  | Some AwaitHash =>
      files s0 !! (batchFolder idx, basename url) = None ∧
      checksums s !! basename url = stored_checksums s0 !! basename url ∧
      no_record (basename url) s ∧
      ∃ body, written (responses e idx) = Some body ∧
              files s !! (batchFolder idx, basename url) = Some body
  | Some Settled =>
      match files s0 !! (batchFolder idx, basename url) with
      | Some _ => not_yet s0 s url idx
      | None => outcome e s0 s url idx
      end
  end.

(** The stage of position [j] (0-based) when the loop is at chunk [i] with
    the calls [ts] made. *)
Definition stage_at (i : nat) (ts : list task) (j : nat) : option stage :=
  if decide (j < i) then Some Settled else t_stage <$> ts !! (j - i).

(** Every entry of [checksums.json] is the one the run started with or
    the one in memory. *)
Definition store_inv (s0 s : state) : Prop :=
  ∀ name, stored_checksums s !! name = stored_checksums s0 !! name ∨
          stored_checksums s !! name = checksums s !! name.

Definition run_inv (e : run_env) (s0 : state) (i : nat) (s : state)
    (ts : list task) : Prop :=
  store_inv s0 s ∧
  (NoDup (indexData s) ∧
   ∀ en, en ∈ indexData s → e_fileName en ∈ basename <$> pdfLinks (page e)) ∧
  (∀ j url, pdfLinks (page e) !! j = Some url →
            pos_inv e s0 s url (j + 1) (stage_at i ts j)).

(** [s'] differs from [s] in nothing that concerns the file name [n]. *)
Definition same_for (n : string) (s s' : state) : Prop :=
  (∀ d, files s' !! (d, n) = files s !! (d, n)) ∧
  checksums s' !! n = checksums s !! n ∧
  (∀ en, e_fileName en = n → (en ∈ indexData s' ↔ en ∈ indexData s)) ∧
  (stored_checksums s' !! n = stored_checksums s !! n ∨
   stored_checksums s' !! n = checksums s !! n) ∧
  (∀ ev, ev ∈ trace s → ev ∈ trace s').

End Pipeline.

(** ** estimateTotalSize

    The answer to one HEAD request: [None] when axios rejects, otherwise
    what [parseInt(response.headers['content-length'], 10)] yields, [None]
    standing for NaN (no header, or one that does not start with a number).
    Sizes are JavaScript numbers; as integers they are exact as long as the
    total stays below 2^53. *)
Definition head_response : Type := option (option Z).

(** [parseInt(..) || 0]: NaN and 0 are the falsy results. *)
Definition size_or_zero (parsed : option Z) : Z := default 0%Z parsed.

Inductive size_line :=
  | SizeOf (position : nat) (size : Z)   (* log: [i + 1/n] .. MB *)
  | NoSize (url : string).               (* console.error: Couldn't fetch size *)

(** The [for] loop over [pdfLinks], from index [i] on. *)
Fixpoint size_loop (heads : nat → head_response) (rest : list string) (i : nat)
    (acc : Z * list size_line) : Z * list size_line :=
  match rest with
  | [] => acc
  | url :: rest =>
      match heads i with
      | Some parsed =>
          let size := size_or_zero parsed in
          size_loop heads rest (S i) ((acc.1 + size)%Z, acc.2 ++ [SizeOf (i + 1) size])
      | None => size_loop heads rest (S i) (acc.1, acc.2 ++ [NoSize url])
      end
  end.

(** The state (only its trace can change), [totalBytes] and the lines
    logged. *)
Definition estimateTotalSize (page : option (list string))
    (heads : nat → head_response) (s : state) : state * (Z * list size_line) :=
  let '(pdfLinks, s) :=
    getPdfLinks page
      (State (dirs s) (files s) (checksum_file s) (index_file s)
             (checksums s) (indexData s) []) in
  (s, size_loop heads pdfLinks 0 (0%Z, [])).

(** ** mainMenu *)

(** What the operator types at one prompt, and what the outside world does
    while the chosen operation runs. *)
Record interaction := Interaction {
  i_typed : string;
  i_page : option (list string);
  i_heads : nat → head_response;
  i_run : run_env;
  i_readable : string * string → bool }.

Inductive session_end :=
  | Exited          (* process.exit(0) *)
  | Uncaught        (* a rejection that nothing catches ends the process *)
  | AtPrompt.       (* the typed lines are used up: the menu waits *)

Section Menu.

Variable md5 : bytes → string.

(** [mainMenu] calls itself after every operation but the exit; the typed
    lines are consumed one per call. *)
Fixpoint mainMenu (inputs : list interaction) (s : state) : state * session_end :=
  match inputs with
  | [] => (s, AtPrompt)
  | x :: inputs =>
      if decide (i_typed x = "1") then
        mainMenu inputs (estimateTotalSize (i_page x) (i_heads x) s).1
      else if decide (i_typed x = "2") then
        mainMenu inputs (downloadAllPdfs md5 (i_run x) s)
      else if decide (i_typed x = "3") then
        match verifyChecksums md5 (i_readable x) s with
        | (s, Rejected) => (s, Uncaught)
        | (s, _) => mainMenu inputs s
        end
      else if decide (i_typed x = "4") then (s, Exited)
      else mainMenu inputs s
  end.

End Menu.

(** ** More vocabulary *)

(** What is on disk. *)
Definition disk (s : state) :=
  (dirs s, files s, checksum_file s, index_file s).

(** An [href] the selector [a[href$='.pdf']] can match. *)
Definition matched (href : string) : Prop := ∃ stem, href = stem +:+ ".pdf".



(** ** Sample inputs, on which the model is run *)

(** A stand-in for MD5 (the decimal codes of the bytes): distinct contents
    get distinct digests. *)
Definition sample_md5 (b : bytes) : string :=
  String.concat "." ((λ x, pretty (Byte.to_nat x)) <$> b).

Definition sample_body : bytes := [Byte.x25; Byte.x50; Byte.x44; Byte.x46].

Definition empty_disk : state := State [] ∅ None None ∅ [] [].

(** Every request, write, hash and save succeeds. *)
Definition all_fine (idx : nat) : response :=
  Response (Some sample_body) WriteFinish true true true.

Definition numbered_links (n : nat) : list string :=
  (λ k : nat, "https://www.archives.gov/files/" +:+ pretty k +:+ ".pdf") <$> seq 1 n.

(** A download directory left by an earlier run: one stored file, its
    checksum and its manifest record. *)
Definition discovery_fails : run_env := RunEnv None all_fine [].

Definition second_link_only : run_env :=
  RunEnv (Some ["/files/2.pdf"]) all_fine [].

(** The file of the earlier run is listed again, first. *)
Definition both_links : run_env :=
  RunEnv (Some ["/files/1.pdf"; "/files/2.pdf"]) all_fine [[1; 0; 1]].

(** Six links: a full chunk and a second one. *)
Definition six_links : run_env :=
  RunEnv (Some (numbered_links 6)) all_fine [[4; 3; 2; 1; 0; 0; 1; 2; 3; 4]].

(** Three links; the request for the second one is rejected. *)
Definition second_fetch_fails : run_env :=
  RunEnv (Some ["/files/1.pdf"; "/files/2.pdf"; "/files/3.pdf"])
         (λ idx, if decide (idx = 2)
                 then Response None WriteFinish true true true
                 else all_fine idx)
         [[2; 1; 0]].

(** Two links; the write of the second one breaks off after one byte. *)
Definition second_write_breaks : run_env :=
  RunEnv (Some ["/files/1.pdf"; "/files/2.pdf"])
         (λ idx, if decide (idx = 2)
                 then Response (Some sample_body) (WriteError (Some [Byte.x25]))
                               true true true
                 else all_fine idx)
         [].

(** The same two links on a later day, everything succeeding. *)
Definition two_links : run_env :=
  RunEnv (Some ["/files/1.pdf"; "/files/2.pdf"]) all_fine [].

(** A stored file that has no checksum. *)
Definition disk_without_checksum : state :=
  State ["Batch_1"] {[ ("Batch_1", "1.pdf") := sample_body ]} None None ∅ [] [].

(** The stored file differs from what was checksummed. *)
Definition tampered_disk : state :=
  State ["Batch_1"] {[ ("Batch_1", "1.pdf") := [Byte.x25] ]}
        (Some {[ "1.pdf" := sample_md5 sample_body ]}) None ∅ [] [].

Definition disk_after_one_run : state :=
  State ["Batch_1"] {[ ("Batch_1", "1.pdf") := sample_body ]}
        (Some {[ "1.pdf" := sample_md5 sample_body ]})
        (Some [IndexEntry "1.pdf" "https://www.archives.gov/files/1.pdf" 4
                          (sample_md5 sample_body)])
        ∅ [] [].

(** Only the file of the earlier run is listed. *)
Definition first_link_only : run_env :=
  RunEnv (Some ["/files/1.pdf"]) all_fine [].

(** The first HEAD request answers 1000 bytes, the second one has no usable
    [content-length], the others fail. *)
Definition sample_heads (i : nat) : head_response :=
  if decide (i = 0) then Some (Some 1000%Z)
  else if decide (i = 1) then Some None else None.

(** One line typed at the prompt, everything succeeding while the chosen
    operation runs. *)
Definition typed (line : string) : interaction :=
  Interaction line (Some ["/files/1.pdf"; "/files/2.pdf"]) sample_heads
              two_links (λ _, true).

(** Option 3 on a disk whose files cannot be read. *)
Definition verify_unreadable : interaction :=
  Interaction "3" None sample_heads two_links (λ _, false).

(** * Proofs *)

Section Steps.

Variable md5 : bytes → string.

Local Abbreviation resume := (downloadPdf_resume md5).

(** ** The shape of one call and of one resumption *)

Lemma downloadPdf_task url idx s :
  (downloadPdf url idx s).2 =
  Task url idx (if existsSync (batchFolder idx, basename url) s
                then Settled else AwaitFetch).
Proof.
  unfold downloadPdf, getBatchFolder, existsSync, ensureDirSync; simpl.
  destruct (decide _); simpl; destruct (bool_decide _); reflexivity.
Qed.

Lemma resume_same_call r t s :
  t_url (resume r t s).2 = t_url t ∧ t_idx (resume r t s).2 = t_idx t.
Proof.
  unfold downloadPdf_resume, failed, generateChecksum.
  destruct t as [u i []]; simpl; repeat case_match; simpl; auto.
Qed.

Lemma resume_rank r t s :
  rank (t_stage (resume r t s).2) ≤ pred (rank (t_stage t)).
Proof.
  unfold downloadPdf_resume, failed, generateChecksum.
  destruct t as [u i []]; simpl; repeat case_match; simpl; lia.
Qed.

Lemma resume_settled r t s : settled t → resume r t s = (s, t).
Proof. unfold settled, downloadPdf_resume. intros ->. reflexivity. Qed.

(** ** Every call of a chunk settles *)

Lemma resume_slot_length env c k :
  length (resume_slot md5 env c k).2 = length c.2.
Proof.
  unfold resume_slot. destruct (c.2 !! k) as [t|] eqn:E; [|done].
  destruct (resume _ t c.1) as [s' t']. simpl. by rewrite length_insert.
Qed.

Lemma resume_slot_lookup env c k j :
  (resume_slot md5 env c k).2 !! j =
  if decide (j = k) then
    (λ t, (resume (env (t_idx t)) t c.1).2) <$> c.2 !! k
  else c.2 !! j.
Proof.
  unfold resume_slot. destruct (c.2 !! k) as [t|] eqn:E.
  - destruct (resume _ t c.1) as [s' t'] eqn:R. simpl.
    destruct (decide (j = k)) as [->|].
    + rewrite list_lookup_insert_eq by (by eapply lookup_lt_Some).
      simpl. by rewrite R.
    + by rewrite list_lookup_insert_ne.
  - destruct (decide (j = k)) as [->|]; [by rewrite E | done].
Qed.

Lemma fold_resume_length env l c :
  length (fold_left (resume_slot md5 env) l c).2 = length c.2.
Proof.
  revert c. induction l as [|k l IH]; intros c; simpl; [done|].
  by rewrite IH, resume_slot_length.
Qed.

(** A bound on the rank of a slot survives any resumption. *)
Lemma resume_slot_rank env c k j b t' :
  (∀ t, c.2 !! j = Some t → rank (t_stage t) ≤ b) →
  (resume_slot md5 env c k).2 !! j = Some t' → rank (t_stage t') ≤ b.
Proof.
  intros Hb. rewrite resume_slot_lookup. destruct (decide (j = k)) as [->|]; [|auto].
  destruct (c.2 !! k) as [t|] eqn:E; simpl; [|done].
  intros [= <-]. pose proof (resume_rank (env (t_idx t)) t c.1).
  specialize (Hb t eq_refl). lia.
Qed.

Lemma fold_resume_rank env l c j b t' :
  (∀ t, c.2 !! j = Some t → rank (t_stage t) ≤ b) →
  (fold_left (resume_slot md5 env) l c).2 !! j = Some t' → rank (t_stage t') ≤ b.
Proof.
  revert c. induction l as [|k l IH]; intros c Hb; simpl; [auto|].
  apply IH. intros t. by apply resume_slot_rank.
Qed.

(** Resuming every slot once takes one await off each pending call. *)
Lemma sweep_lowers_ranks env l c j b t' :
  j ∈ l →
  (∀ t, c.2 !! j = Some t → rank (t_stage t) ≤ S b) →
  (fold_left (resume_slot md5 env) l c).2 !! j = Some t' → rank (t_stage t') ≤ b.
Proof.
  revert c. induction l as [|k l IH]; intros c Hin Hb; [by apply elem_of_nil in Hin|].
  simpl. destruct (decide (j = k)) as [->|Hne].
  - apply fold_resume_rank. intros t. rewrite resume_slot_lookup, decide_True by done.
    destruct (c.2 !! k) as [t0|] eqn:E; simpl; [|done]. intros [= <-].
    pose proof (resume_rank (env (t_idx t0)) t0 c.1). specialize (Hb t0 eq_refl). lia.
  - apply IH.
    + apply elem_of_cons in Hin as [?|?]; [done|done].
    + intros t. by apply resume_slot_rank.
Qed.

Lemma sweep_ranks env n c b :
  length c.2 = n → ranks_below (S b) c.2 →
  ranks_below b (fold_left (resume_slot md5 env) (seq 0 n) c).2.
Proof.
  intros Hn Hb. apply Forall_lookup. intros j t' Hj.
  eapply (sweep_lowers_ranks env (seq 0 n) c j); [| |exact Hj].
  - apply elem_of_seq. apply lookup_lt_Some in Hj.
    rewrite fold_resume_length in Hj. lia.
  - intros t Ht. by eapply (proj1 (Forall_lookup _ _) Hb).
Qed.

Lemma promise_all_settles env sched c :
  Forall settled (promise_all md5 env sched c).2.
Proof.
  unfold promise_all, drain. rewrite !fold_left_app.
  set (c1 := fold_left _ sched c).
  assert (Hlen : length c1.2 = length c.2) by apply fold_resume_length.
  assert (H3 : ranks_below 3 c1.2).
  { apply Forall_forall. intros t _. destruct (t_stage t); simpl; lia. }
  rewrite <- Hlen.
  pose proof (sweep_ranks env _ c1 2 eq_refl H3) as H2.
  set (c2 := fold_left _ (seq 0 (length c1.2)) c1) in *.
  assert (Hlen2 : length c2.2 = length c1.2) by apply fold_resume_length.
  pose proof (sweep_ranks env _ c2 1 Hlen2 H2) as H1.
  set (c3 := fold_left _ (seq 0 (length c1.2)) c2) in *.
  assert (Hlen3 : length c3.2 = length c1.2).
  { unfold c3. by rewrite fold_resume_length. }
  pose proof (sweep_ranks env _ c3 0 Hlen3 H1) as H0.
  eapply Forall_impl; [exact H0|]. intros t Ht. unfold settled.
  simpl in Ht. destruct (t_stage t); simpl in Ht; (done || lia).
Qed.

End Steps.

(** ** An induction principle for the chunk loop

    An invariant [K i s ts] of the loop index, the state and the calls of
    the current chunk holds when the loop ends, provided it survives a call
    of [downloadPdf], a resumption, and the passage to the next chunk (where
    every call is known to have settled). *)

Section LoopInduction.

Variable md5 : bytes → string.
Variable L : list string.
Variable env : nat → response.
Variable K : nat → state → list task → Prop.

Local Abbreviation resume := (downloadPdf_resume md5).

Hypothesis K_call : ∀ i s ts url,
  K i s ts → chunk_tasks L i ts →
  L !! (i + length ts) = Some url → length ts < CHUNK_SIZE →
  K i (downloadPdf url (i + length ts + 1) s).1
      (ts ++ [(downloadPdf url (i + length ts + 1) s).2]).

Hypothesis K_resume : ∀ i s ts k t,
  K i s ts → chunk_tasks L i ts → ts !! k = Some t →
  K i (resume (env (t_idx t)) t s).1 (<[k := (resume (env (t_idx t)) t s).2]> ts).

Hypothesis K_next : ∀ i s ts,
  K i s ts → chunk_tasks L i ts → Forall settled ts → i < length L →
  length ts = length (slice i (i + CHUNK_SIZE) L) →
  K (i + CHUNK_SIZE) s [].

Lemma slice_lookup {A} (l : list A) i n j x :
  slice i (i + n) l !! j = Some x → l !! (i + j) = Some x ∧ j < n.
Proof.
  unfold slice. replace (i + n - i) with n by lia.
  rewrite lookup_take_Some, lookup_drop. tauto.
Qed.

Lemma slice_length {A} (l : list A) i n :
  length (slice i (i + n) l) = n `min` (length l - i).
Proof.
  unfold slice. replace (i + n - i) with n by lia.
  by rewrite length_take, length_drop.
Qed.

Lemma chunk_tasks_nil i : chunk_tasks L i [].
Proof. split; [simpl; unfold CHUNK_SIZE; lia | intros j t; by rewrite lookup_nil]. Qed.

Lemma chunk_tasks_call i ts url s :
  chunk_tasks L i ts → L !! (i + length ts) = Some url → length ts < CHUNK_SIZE →
  chunk_tasks L i (ts ++ [(downloadPdf url (i + length ts + 1) s).2]).
Proof.
  intros [Hlen Hts] Hurl Hlt. split.
  - rewrite length_app. simpl. lia.
  - intros j t. rewrite lookup_app_Some. intros [Hj|[Hge Hj]]; [by apply Hts|].
    apply list_lookup_singleton_Some in Hj as [Hj <-].
    rewrite downloadPdf_task. simpl.
    replace j with (length ts) by lia. auto.
Qed.

Lemma chunk_tasks_resume i ts k t s :
  chunk_tasks L i ts → ts !! k = Some t →
  chunk_tasks L i (<[k := (resume (env (t_idx t)) t s).2]> ts).
Proof.
  intros [Hlen Hts] Hk. split; [by rewrite length_insert|].
  intros j t'. destruct (decide (j = k)) as [->|Hne].
  - rewrite list_lookup_insert_eq by (by eapply lookup_lt_Some).
    intros [= <-]. destruct (resume_same_call md5 (env (t_idx t)) t s) as [-> ->].
    by apply Hts.
  - rewrite list_lookup_insert_ne by done. apply Hts.
Qed.

Lemma map_downloadPdf_inv i chunk : ∀ idx c,
  length c.2 = idx →
  (∀ j url, chunk !! j = Some url → L !! (i + idx + j) = Some url) →
  idx + length chunk ≤ CHUNK_SIZE →
  K i c.1 c.2 → chunk_tasks L i c.2 →
  let c' := map_downloadPdf i idx chunk c in
  K i c'.1 c'.2 ∧ chunk_tasks L i c'.2 ∧ length c'.2 = idx + length chunk.
Proof.
  induction chunk as [|url rest IH]; intros idx c Hlen Hurls Hle HK Hts; simpl.
  { split; [done|]. split; [done|lia]. }
  simpl in Hle.
  assert (Hurl : L !! (i + length c.2) = Some url).
  { specialize (Hurls 0 url eq_refl). by rewrite Hlen, <- (Nat.add_0_r (i + idx)). }
  assert (Hlt : length c.2 < CHUNK_SIZE) by lia.
  pose proof (K_call i c.1 c.2 url HK Hts Hurl Hlt) as HK'.
  pose proof (chunk_tasks_call i c.2 url c.1 Hts Hurl Hlt) as Hts'.
  rewrite Hlen in HK', Hts'.
  destruct (downloadPdf url (i + idx + 1) c.1) as [s t]. simpl in *.
  specialize (IH (S idx) (s, c.2 ++ [t])). simpl in IH.
  replace (idx + S (length rest)) with (S idx + length rest) by lia.
  apply IH; try done.
  - rewrite length_app. simpl. lia.
  - intros j u Hj. replace (i + S idx + j) with (i + idx + S j) by lia. by apply Hurls.
  - lia.
Qed.

Lemma fold_resume_inv i l : ∀ c,
  K i c.1 c.2 → chunk_tasks L i c.2 →
  let c' := fold_left (resume_slot md5 env) l c in
  K i c'.1 c'.2 ∧ chunk_tasks L i c'.2.
Proof.
  induction l as [|k l IH]; intros c HK Hts; simpl; [done|].
  apply IH; unfold resume_slot; destruct (c.2 !! k) as [t|] eqn:E; try done.
  - pose proof (K_resume i c.1 c.2 k t HK Hts E).
    by destruct (resume _ t c.1).
  - pose proof (chunk_tasks_resume i c.2 k t c.1 Hts E).
    by destruct (resume _ t c.1).
Qed.

Lemma chunk_loop_fuel fuel : ∀ scheds i s,
  length L ≤ i + fuel →
  chunk_loop md5 (S fuel) L env scheds i s = chunk_loop md5 fuel L env scheds i s.
Proof.
  induction fuel as [|fuel IH]; intros scheds i s Hfuel.
  - simpl. by rewrite decide_False by lia.
  - change (chunk_loop md5 (S (S fuel)) L env scheds i s) with
      (if decide (i < length L) then
         chunk_loop md5 (S fuel) L env (tl scheds) (i + CHUNK_SIZE)
           (promise_all md5 env (hd [] scheds)
              (map_downloadPdf i 0 (slice i (i + CHUNK_SIZE) L) (s, []))).1
       else s).
    rewrite IH by (unfold CHUNK_SIZE; lia). done.
Qed.

Lemma chunk_loop_ind fuel : ∀ scheds i s,
  K i s [] → length L ≤ i + fuel →
  ∃ j, length L ≤ j ∧ K j (chunk_loop md5 fuel L env scheds i s) [].
Proof.
  induction fuel as [|fuel IH]; intros scheds i s HK Hfuel; simpl.
  { exists i. split; [lia | done]. }
  destruct (decide (i < length L)) as [Hi|Hi]; [|exists i; split; [lia | done]].
  destruct (map_downloadPdf_inv i (slice i (i + CHUNK_SIZE) L) 0 (s, []))
    as (HK1 & Hts1 & Hlen1); simpl; try done.
  { intros j url Hj. apply slice_lookup in Hj as [Hj _]. by rewrite Nat.add_0_r. }
  { rewrite slice_length. lia. }
  { apply chunk_tasks_nil. }
  set (c1 := map_downloadPdf _ _ _ _) in *.
  pose proof (promise_all_settles md5 env (hd [] scheds) c1) as Hall.
  destruct (fold_resume_inv i (hd [] scheds ++ drain (length c1.2)) c1 HK1 Hts1)
    as [HK2 Hts2].
  fold (promise_all md5 env (hd [] scheds) c1) in HK2, Hts2.
  set (c2 := promise_all _ _ _ _) in *.
  apply IH; [|unfold CHUNK_SIZE; lia].
  apply (K_next i c2.1 c2.2); try done.
  unfold c2, promise_all. by rewrite fold_resume_length.
Qed.

End LoopInduction.

(** ** Verification *)

Section Verification.

Variable md5 : bytes → string.

Lemma find_file_Some fileName folders s p :
  find_file fileName folders s = Some p ↔
  ∃ l1 b l2, folders = l1 ++ b :: l2 ∧ p = (b, fileName) ∧
             is_Some (files s !! (b, fileName)) ∧
             ∀ b', b' ∈ l1 → files s !! (b', fileName) = None.
Proof.
  induction folders as [|b0 rest IH]; simpl.
  { split; [done|]. intros (l1 & b & l2 & Hl & _). by destruct l1. }
  unfold existsSync. case_bool_decide as Hb.
  - split.
    + intros [= <-]. exists [], b0, rest. split; [done|]. split; [done|].
      split; [done|]. intros b' Hb'. by apply elem_of_nil in Hb'.
    + intros (l1 & b & l2 & Hl & -> & Hsome & Hnone). destruct l1 as [|b1 l1].
      * simpl in Hl. by injection Hl as -> _.
      * simpl in Hl. injection Hl as <- _.
        rewrite (Hnone b0) in Hb by apply list_elem_of_here.
        by destruct Hb.
  - rewrite IH. split.
    + intros (l1 & b & l2 & -> & -> & Hsome & Hnone).
      exists (b0 :: l1), b, l2. split; [done|]. split; [done|]. split; [done|].
      intros b' [->|Hb']%elem_of_cons; [|auto].
      destruct (files s !! (b0, fileName)) eqn:E; [|done].
      destruct Hb. by eexists.
    + intros (l1 & b & l2 & Hl & -> & Hsome & Hnone). destruct l1 as [|b1 l1].
      * simpl in Hl. injection Hl as -> _. done.
      * simpl in Hl. injection Hl as <- ->. exists l1, b, l2.
        split; [done|]. split; [done|]. split; [done|].
        intros b' Hb'. apply Hnone. by apply list_elem_of_further.
Qed.

Lemma find_file_None fileName folders s :
  find_file fileName folders s = None ↔
  ∀ b, b ∈ folders → files s !! (b, fileName) = None.
Proof.
  induction folders as [|b0 rest IH]; simpl.
  { split; [|done]. intros _ b Hb. by apply elem_of_nil in Hb. }
  unfold existsSync. case_bool_decide as Hb.
  - split; [done|]. intros Hall. rewrite (Hall b0) in Hb by apply list_elem_of_here.
    by destruct Hb.
  - rewrite IH. split.
    + intros Hall b [->|Hin]%elem_of_cons; [|auto].
      destruct (files s !! (b0, fileName)) eqn:E; [|done]. destruct Hb. by eexists.
    + intros Hall b Hin. apply Hall. by apply list_elem_of_further.
Qed.

Lemma find_file_log_all fileName folders es s :
  find_file fileName folders (log_all es s) = find_file fileName folders s.
Proof. induction folders as [|b rest IH]; simpl; [done|]. by rewrite IH. Qed.

Lemma log_all_nil s : log_all [] s = s.
Proof. destruct s. unfold log_all. simpl. by rewrite app_nil_r. Qed.

Lemma log_all_app es1 es2 s : log_all es2 (log_all es1 s) = log_all (es1 ++ es2) s.
Proof. unfold log_all. simpl. by rewrite app_assoc. Qed.

Lemma log_log_all e s : log e s = log_all [e] s.
Proof. reflexivity. Qed.

(** Without a read error the loop visits every entry, logging
    [entry_report] and collecting [entry_problem]. *)
Lemma verify_entries_from readable s entries : ∀ corruptedFiles es,
  (∀ p, readable p = true) →
  verify_entries md5 readable entries corruptedFiles (log_all es s) =
  (log_all (es ++ entries ≫= entry_report md5 s) s,
   Completed (corruptedFiles ++ omap (entry_problem md5 s) entries)).
Proof.
  induction entries as [|[fileName originalHash] rest IH];
    intros corruptedFiles es Hread; simpl.
  { by rewrite !app_nil_r. }
  unfold entry_report at 1, entry_problem at 1. simpl.
  rewrite log_log_all.
  replace (list_batchFolders (log_all es s)) with (list_batchFolders s)
    by reflexivity.
  rewrite ?log_all_app, find_file_log_all.
  destruct (find_file fileName (list_batchFolders s) s) as [p|] eqn:Ef.
  - rewrite ?log_log_all, ?log_all_app. unfold generateChecksum. rewrite Hread.
    simpl.
    apply find_file_Some in Ef as (l1 & b & l2 & _ & -> & [content Hc] & _).
    rewrite Hc. simpl.
    destruct (decide (md5 content ≠ originalHash)) as [Hne|Heq];
      destruct (decide (Some (md5 content) = Some originalHash)) as [Heq'|Hne'];
      try (exfalso; naive_solver).
    + rewrite ?log_log_all, ?log_all_app, IH by done.
      simpl. by rewrite <- !app_assoc.
    + rewrite ?log_log_all, ?log_all_app, IH by done.
      simpl. by rewrite <- !app_assoc.
  - rewrite ?log_log_all, ?log_all_app, IH by done.
    simpl. by rewrite <- !app_assoc.
Qed.

End Verification.

Section VerificationClaims.

Variable md5 : bytes → string.

Lemma find_file_files fileName folders s s' :
  files s = files s' → find_file fileName folders s = find_file fileName folders s'.
Proof.
  intros Hf. induction folders as [|b rest IH]; simpl; [done|].
  unfold existsSync. by rewrite Hf, IH.
Qed.

Lemma find_file_name fileName folders s p :
  find_file fileName folders s = Some p → p.2 = fileName.
Proof. intros (? & ? & ? & _ & -> & _)%find_file_Some. done. Qed.

Lemma entry_report_same s s' entry :
  dirs s = dirs s' → files s = files s' → index_file s = index_file s' →
  checksum_file s = checksum_file s' →
  entry_report md5 s entry = entry_report md5 s' entry ∧
  entry_problem md5 s entry = entry_problem md5 s' entry.
Proof.
  intros Hd Hf Hi Hc. unfold entry_report, entry_problem.
  assert (list_batchFolders s = list_batchFolders s') as ->.
  { unfold list_batchFolders, readdirSync. by rewrite Hd, Hi, Hc. }
  by rewrite (find_file_files _ _ s s'), Hf.
Qed.

Lemma entry_report_events s en e :
  e ∈ entry_report md5 s en →
  e = EvReaddir ∨ e = EvMissing en.1 ∨ e = EvOk en.1 ∨ e = EvCorrupted en.1 ∨
  ∃ b, e = EvHash (b, en.1).
Proof.
  unfold entry_report. destruct (find_file _ _ _) as [q|] eqn:Eq.
  - apply find_file_Some in Eq as (? & b & ? & _ & -> & _).
    rewrite !elem_of_cons, elem_of_nil. case_decide; naive_solver.
  - rewrite !elem_of_cons, elem_of_nil. naive_solver.
Qed.

Lemma entry_problem_name s en f : entry_problem md5 s en = Some f → f = en.1.
Proof. unfold entry_problem. repeat case_match; congruence. Qed.

Lemma verifyChecksums_run readable s cs :
  checksum_file s = Some cs → (∀ p, readable p = true) →
  (verifyChecksums md5 readable s).2 =
    Completed (omap (entry_problem md5 s) (map_to_list cs)) ∧
  trace (verifyChecksums md5 readable s).1 = map_to_list cs ≫= entry_report md5 s.
Proof.
  intros Hcs Hread. unfold verifyChecksums. simpl. rewrite Hcs.
  set (s0 := State _ _ _ _ _ _ []).
  rewrite <- (log_all_nil s0), verify_entries_from by done. simpl.
  assert (Hsame : ∀ en, entry_report md5 s0 en = entry_report md5 s en ∧
                        entry_problem md5 s0 en = entry_problem md5 s en).
  { intros en. by apply entry_report_same. }
  split.
  - f_equal. apply list_omap_ext, Forall2_same_length_lookup. split; [done|].
    intros i x y Hx Hy. assert (x = y) as -> by congruence. apply Hsame.
  - apply list_bind_ext; [|done]. intros en. apply Hsame.
Qed.

(** C8: when [checksums.json] does not exist, verification returns at once
    after the "no checksums" message: it lists no directory, hashes no file
    and leaves the disk as it is. *)
Theorem verify_without_checksum_file readable s :
  checksum_file s = None →
  (verifyChecksums md5 readable s).2 = NoChecksums ∧
  trace (verifyChecksums md5 readable s).1 = [EvNoChecksums] ∧
  dirs (verifyChecksums md5 readable s).1 = dirs s ∧
  files (verifyChecksums md5 readable s).1 = files s ∧
  checksum_file (verifyChecksums md5 readable s).1 = None ∧
  index_file (verifyChecksums md5 readable s).1 = index_file s.
Proof. intros Hcs. unfold verifyChecksums. simpl. by rewrite Hcs. Qed.

Lemma verify_entry readable s cs fileName D :
  checksum_file s = Some cs → cs !! fileName = Some D →
  (∀ p, readable p = true) →
  ∃ corruptedFiles,
    (verifyChecksums md5 readable s).2 = Completed corruptedFiles ∧
    let tr := trace (verifyChecksums md5 readable s).1 in
    ((∀ b, b ∈ list_batchFolders s → files s !! (b, fileName) = None) →
       EvMissing fileName ∈ tr ∧ fileName ∈ corruptedFiles ∧
       (EvOk fileName ∉ tr) ∧ (∀ p, p.2 = fileName → EvHash p ∉ tr)) ∧
    (∀ l1 b l2 content,
       list_batchFolders s = l1 ++ b :: l2 →
       (∀ b', b' ∈ l1 → files s !! (b', fileName) = None) →
       files s !! (b, fileName) = Some content →
       EvHash (b, fileName) ∈ tr ∧
       (∀ p, p.2 = fileName → EvHash p ∈ tr → p = (b, fileName)) ∧
       (EvMissing fileName ∉ tr) ∧
       (md5 content ≠ D →
          EvCorrupted fileName ∈ tr ∧ fileName ∈ corruptedFiles ∧ EvOk fileName ∉ tr) ∧
       (md5 content = D →
          EvOk fileName ∈ tr ∧ (fileName ∉ corruptedFiles) ∧ EvCorrupted fileName ∉ tr)).
Proof.
  intros Hcs HD Hread.
  destruct (verifyChecksums_run readable s cs Hcs Hread) as [Hv Htr].
  eexists. split; [exact Hv|]. simpl. rewrite Htr.
  assert (Hin : (fileName, D) ∈ map_to_list cs) by by apply elem_of_map_to_list.
  assert (Huniq : ∀ en, en ∈ map_to_list cs → en.1 = fileName → en = (fileName, D)).
  { intros [f d] Hen Hf. simpl in Hf. subst f.
    apply elem_of_map_to_list in Hen. congruence. }
  assert (Hown : ∀ e en, en ∈ map_to_list cs → e ∈ entry_report md5 s en →
                   (e = EvOk fileName ∨ e = EvCorrupted fileName ∨
                    e = EvMissing fileName ∨ ∃ p, e = EvHash p ∧ p.2 = fileName) →
                   e ∈ entry_report md5 s (fileName, D)).
  { intros e en Hen He Hcase. assert (en.1 = fileName).
    { apply entry_report_events in He. naive_solver. }
    by rewrite <- (Huniq en). }
  assert (Hpown : ∀ en, en ∈ map_to_list cs →
                    entry_problem md5 s en = Some fileName →
                    entry_problem md5 s (fileName, D) = Some fileName).
  { intros en Hen He. pose proof (entry_problem_name _ _ _ He).
    by rewrite <- (Huniq en). }
  assert (Hmine : ∀ e, e ∈ entry_report md5 s (fileName, D) →
                    e ∈ map_to_list cs ≫= entry_report md5 s).
  { intros e He. apply list_elem_of_bind. by exists (fileName, D). }
  assert (Hback : ∀ e, e ∈ map_to_list cs ≫= entry_report md5 s →
                    (e = EvOk fileName ∨ e = EvCorrupted fileName ∨
                     e = EvMissing fileName ∨ ∃ p, e = EvHash p ∧ p.2 = fileName) →
                    e ∈ entry_report md5 s (fileName, D)).
  { intros e (en & He & Hen)%list_elem_of_bind Hcase. by apply (Hown e en). }
  split.
  - intros Hnone. apply find_file_None in Hnone.
    assert (Hrep : entry_report md5 s (fileName, D) = [EvReaddir; EvMissing fileName]).
    { unfold entry_report. simpl. by rewrite Hnone. }
    assert (Hpro : entry_problem md5 s (fileName, D) = Some fileName).
    { unfold entry_problem. simpl. by rewrite Hnone. }
    split; [|split; [|split]].
    + apply Hmine. rewrite Hrep, !elem_of_cons. auto.
    + apply list_elem_of_omap. by exists (fileName, D).
    + intros He. apply Hback in He; [|auto].
      rewrite Hrep, !elem_of_cons, elem_of_nil in He. naive_solver.
    + intros p Hp He. apply Hback in He; [|eauto 6].
      rewrite Hrep, !elem_of_cons, elem_of_nil in He. naive_solver.
  - intros l1 b l2 content Hl Hl1 Hc.
    assert (Hfind : find_file fileName (list_batchFolders s) s = Some (b, fileName)).
    { apply find_file_Some. exists l1, b, l2. by rewrite Hc. }
    assert (Hrep : entry_report md5 s (fileName, D) =
                   [EvReaddir; EvHash (b, fileName);
                    if decide (md5 content = D) then EvOk fileName
                    else EvCorrupted fileName]).
    { unfold entry_report. simpl. rewrite Hfind, Hc. simpl.
      repeat case_decide; (done || exfalso; naive_solver). }
    assert (Hpro : entry_problem md5 s (fileName, D) =
                   if decide (md5 content = D) then None else Some fileName).
    { unfold entry_problem. simpl. rewrite Hfind, Hc. simpl.
      repeat case_decide; (done || exfalso; naive_solver). }
    split; [|split; [|split; [|split]]].
    + apply Hmine. rewrite Hrep, !elem_of_cons. auto.
    + intros p Hp He. apply Hback in He; [|eauto 6].
      rewrite Hrep, !elem_of_cons, elem_of_nil in He. case_decide; naive_solver.
    + intros He. apply Hback in He; [|auto].
      rewrite Hrep, !elem_of_cons, elem_of_nil in He. case_decide; naive_solver.
    + intros Hne. rewrite decide_False in Hrep by done. rewrite decide_False in Hpro by done.
      split; [|split].
      * apply Hmine. rewrite Hrep, !elem_of_cons. auto.
      * apply list_elem_of_omap. by exists (fileName, D).
      * intros He. apply Hback in He; [|auto].
        rewrite Hrep, !elem_of_cons, elem_of_nil in He. naive_solver.
    + intros Heq. rewrite decide_True in Hrep by done. rewrite decide_True in Hpro by done.
      split; [|split].
      * apply Hmine. rewrite Hrep, !elem_of_cons. auto.
      * intros (en & Hen & He)%list_elem_of_omap.
        apply Hpown in He; [|done]. congruence.
      * intros He. apply Hback in He; [|auto].
        rewrite Hrep, !elem_of_cons, elem_of_nil in He. naive_solver.
Qed.


(** C7: for every entry [(fileName, D)] of the ChecksumStore, verification
    looks for a file of that name in the partition directories in directory
    order and stops at the first one that has it.  When none has it the file
    is reported Missing; when one has it only that file is hashed, and a
    digest different from [D] is reported Corrupted, never OK.  (The run is
    one in which no read of a stored file fails.) *)
Theorem verify_reports_every_entry readable s cs fileName D :
  checksum_file s = Some cs → cs !! fileName = Some D →
  (∀ p, readable p = true) →
  ∃ corruptedFiles,
    (verifyChecksums md5 readable s).2 = Completed corruptedFiles ∧
    let tr := trace (verifyChecksums md5 readable s).1 in
    ((∀ b, b ∈ list_batchFolders s → files s !! (b, fileName) = None) →
       EvMissing fileName ∈ tr ∧ fileName ∈ corruptedFiles ∧
       (EvOk fileName ∉ tr) ∧ (∀ p, p.2 = fileName → EvHash p ∉ tr)) ∧
    (∀ l1 b l2 content,
       list_batchFolders s = l1 ++ b :: l2 →
       (∀ b', b' ∈ l1 → files s !! (b', fileName) = None) →
       files s !! (b, fileName) = Some content →
       EvHash (b, fileName) ∈ tr ∧
       (∀ p, p.2 = fileName → EvHash p ∈ tr → p = (b, fileName)) ∧
       (EvMissing fileName ∉ tr) ∧
       (md5 content ≠ D →
          EvCorrupted fileName ∈ tr ∧ fileName ∈ corruptedFiles ∧ EvOk fileName ∉ tr) ∧
       (md5 content = D →
          EvOk fileName ∈ tr ∧ (fileName ∉ corruptedFiles) ∧ EvCorrupted fileName ∉ tr)).
Proof. apply verify_entry. Qed.

(** Verification never writes [checksums.json]. *)
Lemma verify_entries_checksum_file readable entries : ∀ corruptedFiles s,
  checksum_file (verify_entries md5 readable entries corruptedFiles s).1
  = checksum_file s.
Proof.
  induction entries as [|[fileName originalHash] rest IH]; intros acc s; simpl;
    [done|].
  repeat case_match; simpl; rewrite ?IH; done.
Qed.

Lemma verifyChecksums_checksum_file readable s :
  checksum_file (verifyChecksums md5 readable s).1 = checksum_file s.
Proof.
  unfold verifyChecksums. simpl. destruct (checksum_file s) eqn:E; simpl; [|done].
  by rewrite verify_entries_checksum_file.
Qed.

End VerificationClaims.

Lemma verify_without_checksum_file_witness :
  (verifyChecksums sample_md5 (λ _, true) empty_disk).2 = NoChecksums ∧
  trace (verifyChecksums sample_md5 (λ _, true) empty_disk).1 = [EvNoChecksums].
Proof.
  destruct (verify_without_checksum_file sample_md5 (λ _, true) empty_disk)
    as (Hv & Htr & _); [reflexivity|].
  split; [exact Hv | exact Htr].
Defined.

Lemma verify_reports_every_entry_witness :
  EvCorrupted "1.pdf" ∈ trace (verifyChecksums sample_md5 (λ _, true) tampered_disk).1 ∧
  EvOk "1.pdf" ∉ trace (verifyChecksums sample_md5 (λ _, true) tampered_disk).1.
Proof.
  destruct (verify_reports_every_entry sample_md5 (λ _, true) tampered_disk
              {[ "1.pdf" := sample_md5 sample_body ]} "1.pdf"
              (sample_md5 sample_body))
    as (corruptedFiles & _ & _ & Hfound).
  - reflexivity.
  - reflexivity.
  - reflexivity.
  - destruct (Hfound [] "Batch_1" [] [Byte.x25]) as (_ & _ & _ & Hne & _).
    + reflexivity.
    + intros b' Hb'. by apply elem_of_nil in Hb'.
    + reflexivity.
    + destruct Hne as (Hc & _ & Hok); [by vm_compute|].
      split; [exact Hc | exact Hok].
Defined.

(** ** What a call and a resumption can change *)

Section Effects.

Variable md5 : bytes → string.

Local Abbreviation resume := (downloadPdf_resume md5).

Lemma downloadPdf_effects url idx s :
  let s' := (downloadPdf url idx s).1 in
  files s' = files s ∧ checksum_file s' = checksum_file s ∧
  index_file s' = index_file s ∧ checksums s' = checksums s ∧
  indexData s' = indexData s ∧
  (dirs s' = dirs s ∨ dirs s' = dirs s ++ [batchFolder idx]).
Proof.
  unfold downloadPdf, getBatchFolder, existsSync, ensureDirSync; simpl.
  destruct (decide _); simpl; destruct (bool_decide _); simpl; auto 10.
Qed.

Lemma downloadPdf_trace url idx s :
  trace (downloadPdf url idx s).1 =
  trace s ++ if existsSync (batchFolder idx, basename url) s
             then [EvCall idx; EvSkip (basename url); EvSettle idx]
             else [EvCall idx; EvGet url].
Proof.
  unfold downloadPdf, getBatchFolder, existsSync, ensureDirSync; simpl.
  destruct (decide _); simpl; destruct (bool_decide _); simpl;
    by rewrite <- ?app_assoc.
Qed.

Lemma resume_effects r t s :
  let s' := (resume r t s).1 in
  dirs s' = dirs s ∧ index_file s' = index_file s ∧
  (files s' = files s ∨ ∃ b, files s' = <[t_filePath t := b]> (files s)) ∧
  (checksums s' = checksums s ∨
   ∃ d, checksums s' = <[t_fileName t := d]> (checksums s)) ∧
  (checksum_file s' = checksum_file s ∨ checksum_file s' = Some (checksums s')) ∧
  (indexData s' = indexData s ∨
   ∃ e, e_fileName e = t_fileName t ∧ indexData s' = indexData s ++ [e]).
Proof.
  unfold downloadPdf_resume, failed, generateChecksum.
  destruct t as [u i []]; simpl; repeat case_match; simpl;
    split_and!; try done; try (by left);
    try (right; eexists; reflexivity);
    try (right; eexists; split; [|reflexivity]; reflexivity);
    try (by right).
Qed.

Lemma resume_index r t s :
  indexData (resume r t s).1 = indexData s ∨
  t_stage t = AwaitHash ∧
  ∃ en, e_fileName en = t_fileName t ∧
        indexData (resume r t s).1 = indexData s ++ [en].
Proof.
  unfold downloadPdf_resume, failed, generateChecksum.
  destruct t as [u i []]; simpl; repeat case_match; simpl;
    try (by left); right; (split; [done|]); eexists; (split; [|reflexivity]);
    reflexivity.
Qed.

Lemma resume_trace r t s :
  let es := events_since (length (trace s)) (resume r t s).1 in
  trace (resume r t s).1 = trace s ++ es ∧
  Forall (event_of (t_url t) (t_idx t)) es ∧
  count is_call es = 0 ∧
  count is_settle es = pending t - pending (resume r t s).2 ∧
  (pending (resume r t s).2 < pending t → EvSettle (t_idx t) ∈ es).
Proof.
  unfold events_since, downloadPdf_resume, failed, generateChecksum, event_of,
    t_filePath, t_fileName, pending.
  destruct t as [u i []]; simpl; repeat case_match; simpl;
    rewrite <- ?app_assoc, ?drop_app_length, ?drop_all, ?app_nil_r; simpl;
    (split; [done|]);
    (split; [repeat (apply List.Forall_cons; [auto 10|]); apply List.Forall_nil|]);
    (split; [done|]); (split; [done|]);
    intros; simplify_eq/=;
    first [lia | repeat first [apply list_elem_of_here | apply list_elem_of_further]].
Qed.

End Effects.

(** ** Whole runs *)

Section Runs.

Variable md5 : bytes → string.

Local Abbreviation resume := (downloadPdf_resume md5).

Lemma downloadAllPdfs_eq e s :
  downloadAllPdfs md5 e s = log EvSaveIndex (save_index (loop_end md5 e s)).
Proof.
  unfold downloadAllPdfs, loop_end, start_state, getPdfLinks, pdfLinks.
  destruct (page e); reflexivity.
Qed.

(** [chunk_loop_ind] for a whole run. *)
Lemma run_ind (K : nat → state → list task → Prop) e s :
  (∀ i s ts url,
     K i s ts → chunk_tasks (pdfLinks (page e)) i ts →
     pdfLinks (page e) !! (i + length ts) = Some url → length ts < CHUNK_SIZE →
     K i (downloadPdf url (i + length ts + 1) s).1
       (ts ++ [(downloadPdf url (i + length ts + 1) s).2])) →
  (∀ i s ts k t,
     K i s ts → chunk_tasks (pdfLinks (page e)) i ts → ts !! k = Some t →
     K i (resume (responses e (t_idx t)) t s).1
       (<[k := (resume (responses e (t_idx t)) t s).2]> ts)) →
  (∀ i s ts,
     K i s ts → chunk_tasks (pdfLinks (page e)) i ts → Forall settled ts →
     i < length (pdfLinks (page e)) →
     length ts = length (slice i (i + CHUNK_SIZE) (pdfLinks (page e))) →
     K (i + CHUNK_SIZE) s []) →
  K 0 (start_state e s) [] →
  ∃ j, length (pdfLinks (page e)) ≤ j ∧ K j (loop_end md5 e s) [].
Proof.
  intros Hcall Hres Hnext H0. unfold loop_end.
  by apply (chunk_loop_ind md5 _ _ K).
Qed.

(** An invariant of the state alone needs no word on the chunks. *)
Lemma run_state_ind (P : state → Prop) e s :
  (∀ s url idx, P s → url ∈ pdfLinks (page e) → P (downloadPdf url idx s).1) →
  (∀ s r t, P s → t_url t ∈ pdfLinks (page e) → P (resume r t s).1) →
  P (start_state e s) → P (loop_end md5 e s).
Proof.
  intros Hcall Hres H0.
  destruct (run_ind (λ _ s _, P s) e s) as (j & _ & HP); try done.
  - intros i s1 ts url HP _ Hurl _. apply Hcall; [done|].
    by eapply list_elem_of_lookup_2.
  - intros i s1 ts k t HP [_ Hts] Hk. apply Hres; [done|].
    destruct (Hts k t Hk) as [_ Hurl]. by eapply list_elem_of_lookup_2.
Qed.

End Runs.

(** ** Partition numbers *)

Lemma batchNumber_spec_partitionNumber i :
  1 ≤ i →
  batchNumber i = spec_partitionNumber i + (if decide (i `mod` 500 = 0) then 1 else 0).
Proof.
  intros Hi. unfold batchNumber, spec_partitionNumber, batchSize.
  pose proof (Nat.div_mod_eq i 500). pose proof (Nat.mod_upper_bound i 500).
  pose proof (Nat.div_mod_eq (i - 1) 500).
  pose proof (Nat.mod_upper_bound (i - 1) 500).
  case_decide; nia.
Qed.

Lemma downloadPdf_filePath md5 url idx s r :
  t_filePath (downloadPdf url idx s).2 = (batchFolder idx, basename url) ∧
  t_filePath (downloadPdf_resume md5 r (downloadPdf url idx s).2 s).2
    = (batchFolder idx, basename url).
Proof.
  unfold t_filePath, t_fileName.
  destruct (resume_same_call md5 r (downloadPdf url idx s).2 s) as [-> ->].
  by rewrite downloadPdf_task.
Qed.

(** C1 (not met by the code): the folder is a function of the 1-based
    position alone, but [getBatchFolder] computes [floor(idx / 500) + 1] on
    that 1-based position.  Position 500 therefore gets partition 2, where
    [floor((i - 1) / 500) + 1] is 1: in a run over 500 links in which every
    download succeeds, the 500th file is stored in [Batch_2] and [Batch_1]
    does not have it. *)
Theorem position_500_is_stored_in_Batch_2 :
  batchNumber 500 = 2 ∧ spec_partitionNumber 500 = 1 ∧
  let s := downloadAllPdfs sample_md5
             (RunEnv (Some (numbered_links 500)) all_fine []) empty_disk in
  files s !! ("Batch_2", "500.pdf") = Some sample_body ∧
  files s !! ("Batch_1", "500.pdf") = None ∧
  files s !! ("Batch_1", "499.pdf") = Some sample_body ∧
  dirs s = ["Batch_1"; "Batch_2"].
Proof. vm_compute. done. Qed.

(** ** Failed discovery *)

(** C6 as stated fails: after a failed discovery the run still rewrites
    [index.json], here replacing the record of an earlier run by an empty
    array. *)
Lemma failed_discovery_rewrites_manifest :
  let s' := downloadAllPdfs sample_md5 discovery_fails disk_after_one_run in
  index_file s' = Some [] ∧ index_file s' ≠ index_file disk_after_one_run.
Proof. vm_compute. split; [done|]. intros [=]. Qed.

(** C6, amended: when discovery fails the run calls [downloadPdf] for no
    resource, leaves the stored files, the directories and [checksums.json]
    as they were, and writes [index.json] as the empty array. *)
Theorem failed_discovery_run md5 e s :
  page e = None →
  let s' := downloadAllPdfs md5 e s in
  trace s' = [EvPageError; EvSaveIndex] ∧
  dirs s' = dirs s ∧ files s' = files s ∧
  checksum_file s' = checksum_file s ∧
  index_file s' = Some [].
Proof.
  intros Hp. rewrite downloadAllPdfs_eq. unfold loop_end, start_state, pdfLinks.
  rewrite Hp. simpl. done.
Qed.

Lemma failed_discovery_run_witness :
  let s' := downloadAllPdfs sample_md5 discovery_fails disk_after_one_run in
  trace s' = [EvPageError; EvSaveIndex] ∧
  dirs s' = dirs disk_after_one_run ∧ files s' = files disk_after_one_run ∧
  checksum_file s' = checksum_file disk_after_one_run ∧
  index_file s' = Some [].
Proof. apply (failed_discovery_run sample_md5 discovery_fails). reflexivity. Defined.

(** ** The ChecksumStore *)

Section ChecksumStore.

Variable md5 : bytes → string.

Local Abbreviation resume := (downloadPdf_resume md5).

Lemma keeps_insert names M0 m name d :
  name ∈ names → keeps names M0 m → keeps names M0 (<[name := d]> m).
Proof.
  intros Hin [Hdom Hval]. split.
  - rewrite dom_insert. set_solver.
  - intros n Hn. rewrite lookup_insert_ne; [by apply Hval|]. by intros ->.
Qed.

Lemma run_keeps_checksums e s :
  let names := basename <$> pdfLinks (page e) in
  keeps names (stored_checksums s) (checksums (loop_end md5 e s)) ∧
  keeps names (stored_checksums s) (stored_checksums (loop_end md5 e s)) ∧
  dom (stored_checksums (loop_end md5 e s)) ⊆ dom (checksums (loop_end md5 e s)).
Proof.
  intros names.
  apply (run_state_ind md5
           (λ s1, keeps names (stored_checksums s) (checksums s1) ∧
                  keeps names (stored_checksums s) (stored_checksums s1) ∧
                  dom (stored_checksums s1) ⊆ dom (checksums s1))).
  - intros s1 url idx HP _. unfold stored_checksums in *.
    destruct (downloadPdf_effects url idx s1) as (_ & -> & _ & -> & _). done.
  - intros s1 r t (Hm & Hf & Hsub) Hurl.
    assert (Hname : t_fileName t ∈ names).
    { unfold t_fileName, names. by apply list_elem_of_fmap_2. }
    destruct (resume_effects md5 r t s1) as (_ & _ & _ & Hc & Hcf & _).
    assert (Hm' : keeps names (stored_checksums s) (checksums (resume r t s1).1)).
    { destruct Hc as [->|[d ->]]; [done | by apply keeps_insert]. }
    assert (Hsub' : dom (checksums s1) ⊆ dom (checksums (resume r t s1).1)).
    { destruct Hc as [->|[d ->]]; [done|]. rewrite dom_insert. set_solver. }
    split; [done|]. unfold stored_checksums in *.
    destruct Hcf as [->| ->]; simpl; [|done]. split; [done | set_solver].
  - unfold start_state, stored_checksums, keeps. simpl. done.
Qed.

(** C2: a run starts from the content of [checksums.json] (the empty map
    when there is none); neither the in-memory map nor the file ever loses
    a key, and the entries of names that are not in this run keep their
    digests; a call of [downloadPdf] touches neither, a resumption only adds
    or overwrites the entry of its own file name and either leaves the file
    alone or rewrites it with the whole in-memory map; when a download
    comes to its end without an error report (the hash, [statSync] and the
    save succeed) the file holds the whole map, the new entry included; and
    verification leaves the file as it is. *)
Theorem checksum_store_is_cumulative e s :
  let s' := downloadAllPdfs md5 e s in
  let names := basename <$> pdfLinks (page e) in
  checksums (start_state e s) = stored_checksums s ∧
  keeps names (stored_checksums s) (checksums s') ∧
  keeps names (stored_checksums s) (stored_checksums s') ∧
  dom (stored_checksums s') ⊆ dom (checksums s') ∧
  (∀ url idx s1,
     checksums (downloadPdf url idx s1).1 = checksums s1 ∧
     checksum_file (downloadPdf url idx s1).1 = checksum_file s1) ∧
  (∀ r t s1,
     let s2 := (resume r t s1).1 in
     (checksums s2 = checksums s1 ∨
      ∃ d, checksums s2 = <[t_fileName t := d]> (checksums s1)) ∧
     (checksum_file s2 = checksum_file s1 ∨ checksum_file s2 = Some (checksums s2)) ∧
     (t_stage t ≠ Settled → t_stage (resume r t s1).2 = Settled →
      EvError (t_fileName t) ∉ events_since (length (trace s1)) s2 →
      checksum_file s2 = Some (checksums s2) ∧
      ∃ content, files s1 !! t_filePath t = Some content ∧
                 checksums s2 = <[t_fileName t := md5 content]> (checksums s1))) ∧
  (∀ readable s1,
     checksum_file (verifyChecksums md5 readable s1).1 = checksum_file s1).
Proof.
  intros s' names. unfold s'. rewrite downloadAllPdfs_eq. simpl.
  destruct (run_keeps_checksums e s) as (Hm & Hf & Hsub).
  split; [done|]. split; [done|]. split; [done|]. split; [done|].
  split; [|split; [|apply verifyChecksums_checksum_file]].
  - intros url idx s1.
    destruct (downloadPdf_effects url idx s1) as (_ & -> & _ & -> & _). done.
  - intros r t s1. simpl.
    destruct (resume_effects md5 r t s1) as (_ & _ & _ & Hc & Hcf & _).
    split; [done|]. split; [done|].
    unfold events_since, downloadPdf_resume, failed, generateChecksum.
    destruct t as [u i []]; simpl; try done; repeat case_match; simpl;
      rewrite <- ?app_assoc, ?drop_app_length; simpl; intros _ ? Herr;
      try done; try (exfalso; apply Herr; set_solver).
    match goal with
    | Hd : md5 <$> _ = Some ?d, Hl : ?y = Some ?c |- _ =>
        assert (d = md5 c) as ->
          by (cut (md5 <$> y = Some d); [rewrite Hl; by intros [= ->] | exact Hd])
    end.
    split; [done|]. by eexists.
Qed.

End ChecksumStore.

Lemma checksum_store_is_cumulative_witness :
  stored_checksums (downloadAllPdfs sample_md5 second_link_only disk_after_one_run)
    !! "1.pdf" = Some (sample_md5 sample_body).
Proof.
  destruct (checksum_store_is_cumulative sample_md5 second_link_only
              disk_after_one_run) as (_ & _ & [_ H] & _).
  rewrite H; [reflexivity|]. compute_done.
Defined.

(** ** Files that are already stored *)

Section Skip.

Variable md5 : bytes → string.

Local Abbreviation resume := (downloadPdf_resume md5).

Lemma existsSync_true p s : existsSync p s = true ↔ is_Some (files s !! p).
Proof. unfold existsSync. by rewrite bool_decide_eq_true. Qed.

Lemma downloadPdf_exists url idx s :
  existsSync (batchFolder idx, basename url)
    (ensureDirSync (batchFolder idx) (log (EvCall idx) s))
  = existsSync (batchFolder idx, basename url) s.
Proof. unfold existsSync, ensureDirSync. simpl. by destruct (decide _). Qed.

(** The events of a call that is not for [fileName] say nothing of it. *)
Lemma event_of_other url idx fileName e :
  basename url ≠ fileName → event_of url idx e →
  (∀ u, e = EvGet u → basename u ≠ fileName) ∧
  (∀ p, e = EvHash p → p.2 ≠ fileName).
Proof.
  intros Hne He. unfold event_of in He. split.
  - intros u ->. naive_solver.
  - intros p ->. naive_solver.
Qed.

Lemma untouched_resume fileName r t s :
  t_fileName t ≠ fileName → untouched fileName s →
  untouched fileName (resume r t s).1.
Proof.
  intros Hne (Hc & Hf & Hi & Hg & Hh).
  destruct (resume_effects md5 r t s) as (_ & _ & _ & Hc' & Hcf' & Hi').
  destruct (resume_trace md5 r t s) as (Htr & Hev & _).
  assert (Hc2 : checksums (resume r t s).1 !! fileName = None).
  { destruct Hc' as [->|[d ->]]; [done|]. by rewrite lookup_insert_ne. }
  split; [done|]. split.
  { unfold stored_checksums in *. destruct Hcf' as [->| ->]; done. }
  split.
  { destruct Hi' as [->|(en' & Hn & ->)]; [done|].
    intros en [?|Hin]%elem_of_app; [auto|].
    apply list_elem_of_singleton in Hin as ->. congruence. }
  rewrite Htr. split.
  - intros url [?|Hin]%elem_of_app; [auto|].
    eapply (proj1 (Forall_forall _ _) Hev) in Hin.
    by eapply (event_of_other (t_url t) (t_idx t) fileName).
  - intros p [?|Hin]%elem_of_app; [auto|].
    eapply (proj1 (Forall_forall _ _) Hev) in Hin.
    by eapply (event_of_other (t_url t) (t_idx t) fileName).
Qed.

Lemma untouched_call fileName url idx s :
  (basename url = fileName → is_Some (files s !! (batchFolder idx, basename url))) →
  untouched fileName s → untouched fileName (downloadPdf url idx s).1.
Proof.
  intros Hex (Hc & Hf & Hi & Hg & Hh).
  destruct (downloadPdf_effects url idx s) as (_ & Hcf & _ & Hc' & Hi' & _).
  unfold untouched, stored_checksums in *. rewrite Hcf, Hc', Hi', downloadPdf_trace.
  split; [done|]. split; [done|]. split; [done|].
  destruct (decide (basename url = fileName)) as [Heq|Hne].
  - apply Hex, existsSync_true in Heq. rewrite Heq. split.
    + intros u [?|Hin]%elem_of_app; [auto|]. set_solver.
    + intros p [?|Hin]%elem_of_app; [auto|]. set_solver.
  - split.
    + intros u [?|Hin]%elem_of_app; [auto|]. destruct (existsSync _ _); set_solver.
    + intros p [?|Hin]%elem_of_app; [auto|]. destruct (existsSync _ _); set_solver.
Qed.

Lemma resume_keeps_file p content r t s :
  t_filePath t ≠ p → files s !! p = Some content →
  files (resume r t s).1 !! p = Some content.
Proof.
  intros Hne Hp. destruct (resume_effects md5 r t s) as (_ & _ & [->|[b ->]] & _);
    [done|]. by rewrite lookup_insert_ne.
Qed.

(** One run over a directory in which [(folder, fileName)] is stored and has
    no checksum. *)
Lemma run_skips_stored_file e s folder fileName content :
  files s !! (folder, fileName) = Some content →
  stored_checksums s !! fileName = None →
  reached_in folder fileName e →
  files (loop_end md5 e s) !! (folder, fileName) = Some content ∧
  untouched fileName (loop_end md5 e s).
Proof.
  intros Hfile Hnone Hreach.
  destruct (run_ind md5
    (λ _ s1 ts, files s1 !! (folder, fileName) = Some content ∧
                untouched fileName s1 ∧
                Forall (λ t, t_fileName t = fileName → settled t) ts) e s)
    as (j & _ & H1 & H2 & _); [| | | |done].
  - intros i s1 ts url (Hf & Hu & Hts) _ Hurl _.
    destruct (downloadPdf_effects url (i + length ts + 1) s1) as (Hfiles & _).
    assert (Hex : basename url = fileName →
                  is_Some (files s1 !! (batchFolder (i + length ts + 1), basename url))).
    { intros Hn. rewrite (Hreach _ _ Hurl Hn), Hn, Hf. by eexists. }
    split; [by rewrite Hfiles|]. split; [by apply untouched_call|].
    apply Forall_app. split; [done|]. apply Forall_singleton.
    rewrite downloadPdf_task. unfold t_fileName, settled. simpl. intros Hn.
    apply Hex, existsSync_true in Hn. by rewrite Hn.
  - intros i s1 ts k t (Hf & Hu & Hts) _ Hk.
    destruct (decide (t_fileName t = fileName)) as [Heq|Hne].
    + rewrite resume_settled by (eapply Forall_lookup_1 in Hts; eauto).
      simpl. rewrite list_insert_id by done. done.
    + split; [apply resume_keeps_file; [|done]|].
      { unfold t_filePath. intros [= _ ?]. done. }
      split; [by apply untouched_resume|].
      apply Forall_insert; [done|].
      unfold t_fileName in *. destruct (resume_same_call md5 (responses e (t_idx t)) t s1)
        as [-> _]. done.
  - intros i s1 ts (Hf & Hu & _) _ _ _ _. split; [done|]. split; [done|]. done.
  - unfold start_state, untouched, stored_checksums in *. simpl.
    split; [done|]. split; [|done]. split; [done|]. split; [done|].
    split; [intros en Hen; by apply elem_of_nil in Hen|].
    destruct (page e); split; intros ?; set_solver.
Qed.

End Skip.

Lemma untouched_save_index fileName s :
  untouched fileName s → untouched fileName (log EvSaveIndex (save_index s)).
Proof.
  intros (Hc & Hf & Hi & Hg & Hh). unfold untouched, stored_checksums in *. simpl.
  split; [done|]. split; [done|]. split; [done|].
  split; intros x [?|Hin]%elem_of_app; auto; set_solver.
Qed.

(** C3: when the file of a resource is already at its path, the call of
    [downloadPdf] settles at once: it logs the skip and issues no request and
    no hash, any later resumption is a no-op, and the stored files, both
    checksum maps and the manifest are as before.  Hence a run over a
    directory in which a file is stored without a checksum (the name being
    listed only at positions of that folder) leaves the file as it is,
    records no checksum and no manifest record under its name and neither
    fetches nor hashes it; and so does any number of such runs. *)
Theorem stored_file_is_skipped md5 :
  (∀ url idx s,
     is_Some (files s !! (batchFolder idx, basename url)) →
     let s' := (downloadPdf url idx s).1 in
     let t := (downloadPdf url idx s).2 in
     t_stage t = Settled ∧
     (∀ r s1, downloadPdf_resume md5 r t s1 = (s1, t)) ∧
     trace s' = trace s ++ [EvCall idx; EvSkip (basename url); EvSettle idx] ∧
     files s' = files s ∧ checksums s' = checksums s ∧
     checksum_file s' = checksum_file s ∧
     indexData s' = indexData s ∧ index_file s' = index_file s) ∧
  (∀ e s folder fileName content,
     files s !! (folder, fileName) = Some content →
     stored_checksums s !! fileName = None →
     reached_in folder fileName e →
     let s' := downloadAllPdfs md5 e s in
     files s' !! (folder, fileName) = Some content ∧
     untouched fileName s' ∧ index_file s' = Some (indexData s')) ∧
  (∀ es s folder fileName content,
     files s !! (folder, fileName) = Some content →
     stored_checksums s !! fileName = None →
     Forall (reached_in folder fileName) es →
     let s' := downloadAllPdfs_again md5 es s in
     files s' !! (folder, fileName) = Some content ∧
     stored_checksums s' !! fileName = None).
Proof.
  assert (Hrun : ∀ e s folder fileName content,
     files s !! (folder, fileName) = Some content →
     stored_checksums s !! fileName = None →
     reached_in folder fileName e →
     files (downloadAllPdfs md5 e s) !! (folder, fileName) = Some content ∧
     untouched fileName (downloadAllPdfs md5 e s) ∧
     index_file (downloadAllPdfs md5 e s) = Some (indexData (downloadAllPdfs md5 e s))).
  { intros e s folder fileName content Hf Hn Hr. rewrite downloadAllPdfs_eq.
    destruct (run_skips_stored_file md5 e s folder fileName content Hf Hn Hr)
      as [Hf' Hu].
    split; [done|]. split; [by apply untouched_save_index | done]. }
  split; [|split; [exact Hrun|]].
  - intros url idx s Hex. simpl. rewrite downloadPdf_task, downloadPdf_trace.
    apply existsSync_true in Hex. rewrite Hex.
    destruct (downloadPdf_effects url idx s) as (-> & -> & -> & -> & -> & _).
    split; [done|]. split; [|done]. intros r s1. by apply resume_settled.
  - intros es. induction es as [|e es IH]; intros s folder fileName content Hf Hn Hes;
      simpl; [done|].
    apply Forall_cons in Hes as [He Hes].
    destruct (Hrun e s folder fileName content Hf Hn He) as (Hf' & Hu & _).
    apply IH; [done| |done]. apply Hu.
Qed.

Lemma stored_file_is_skipped_witness :
  let s' := downloadAllPdfs_again sample_md5 [both_links; both_links]
              disk_without_checksum in
  files s' !! ("Batch_1", "1.pdf") = Some sample_body ∧
  stored_checksums s' !! "1.pdf" = None.
Proof.
  apply (proj2 (proj2 (stored_file_is_skipped sample_md5))).
  - reflexivity.
  - reflexivity.
  - assert (Hr : reached_in "Batch_1" "1.pdf" both_links).
    { intros [|[|i]] url; simpl; intros [= <-]; vm_compute; [done | intros [=]]. }
    repeat constructor; exact Hr.
Defined.

(** ** Counting calls in flight *)

Lemma count_app f l1 l2 : count f (l1 ++ l2) = count f l1 + count f l2.
Proof. induction l1 as [|e l1 IH]; simpl; [done|]. rewrite IH. lia. Qed.

Lemma count_prefix f p l : p `prefix_of` l → count f p ≤ count f l.
Proof. intros [k ->]. rewrite count_app. lia. Qed.

Lemma prefix_app_cases {A} (p l1 l2 : list A) :
  p `prefix_of` l1 ++ l2 →
  p `prefix_of` l1 ∨ ∃ p', p = l1 ++ p' ∧ p' `prefix_of` l2.
Proof.
  revert p. induction l1 as [|x l1 IH]; intros p Hp; simpl in *.
  { right. by exists p. }
  destruct p as [|y p]; [left; apply prefix_nil|].
  apply prefix_cons_inv_1 in Hp as Hxy. apply prefix_cons_inv_2 in Hp. subst y.
  destruct (IH p Hp) as [Hl|(p' & -> & Hp')].
  - left. by apply prefix_cons.
  - right. by exists p'.
Qed.

Lemma count_call_none es j : count is_call es = 0 → EvCall j ∉ es.
Proof.
  induction es as [|e es IH]; simpl; intros Hc Hin; [by apply elem_of_nil in Hin|].
  apply elem_of_cons in Hin as [<-|Hin]; simpl in Hc; [lia|].
  apply IH; [|done]. destruct (is_call e); lia.
Qed.

Lemma count_call_omap es : count is_call es = 0 → omap call_index es = [].
Proof.
  induction es as [|e es IH]; simpl; intros Hc; [done|].
  destruct e; simpl in *; try lia; by apply IH.
Qed.

Lemma snoc_prefix_no_call {A} (p l1 l2 : list A) x :
  x ∉ l2 → p ++ [x] `prefix_of` l1 ++ l2 → p ++ [x] `prefix_of` l1.
Proof.
  intros Hx Hp. apply prefix_app_cases in Hp as [?|(p' & Hp & Hp')]; [done|].
  destruct p' as [|y p' _] using rev_ind.
  - rewrite app_nil_r in Hp. by rewrite Hp.
  - exfalso. apply Hx. destruct Hp' as [k ->].
    rewrite app_assoc in Hp. apply app_inj_tail in Hp as [_ ->].
    rewrite !elem_of_app. left. right. by apply list_elem_of_singleton.
Qed.

Lemma in_flight_app ts t : in_flight (ts ++ [t]) = in_flight ts + pending t.
Proof. unfold in_flight. rewrite sum_list_with_app. simpl. lia. Qed.

Lemma in_flight_length ts : in_flight ts ≤ length ts.
Proof.
  unfold in_flight. induction ts as [|t ts IH]; simpl; [done|].
  unfold pending at 1. destruct (t_stage t); lia.
Qed.

Lemma in_flight_insert ts k t t' :
  ts !! k = Some t →
  in_flight (<[k := t']> ts) + pending t = in_flight ts + pending t'.
Proof.
  unfold in_flight. revert k. induction ts as [|t0 ts IH]; intros k Hk; [done|].
  destruct k as [|k]; simpl in *.
  - injection Hk as ->. lia.
  - specialize (IH k Hk). lia.
Qed.

Lemma in_flight_settled ts : Forall settled ts → in_flight ts = 0.
Proof.
  unfold in_flight. induction 1 as [|t ts Ht _ IH]; simpl; [done|].
  unfold pending at 1. rewrite Ht. done.
Qed.

Lemma pending_le_1 t : pending t ≤ 1.
Proof. unfold pending. destruct (t_stage t); lia. Qed.

(** ** Chunks of five, with a barrier *)

Section Barrier.

Variable md5 : bytes → string.

Local Abbreviation resume := (downloadPdf_resume md5).

Lemma resume_pending r t s : pending (resume r t s).2 ≤ pending t.
Proof.
  pose proof (resume_rank md5 r t s) as Hr. unfold pending.
  destruct (t_stage t), (t_stage (resume r t s).2); simpl in Hr; lia.
Qed.

Lemma pending_0 t : pending t = 0 ↔ settled t.
Proof. unfold pending, settled. destruct (t_stage t); split; (done || lia). Qed.

Lemma earlier_group i len i' :
  i `mod` CHUNK_SIZE = 0 → len < CHUNK_SIZE → 1 ≤ i' →
  group_of i' < group_of (i + len + 1) → i' ≤ i.
Proof.
  unfold group_of, CHUNK_SIZE. intros Hi Hlen Hi' Hg.
  pose proof (Nat.div_mod_eq i 5). pose proof (Nat.div_mod_eq (i' - 1) 5).
  pose proof (Nat.div_mod_eq (i + len + 1 - 1) 5).
  pose proof (Nat.mod_upper_bound (i' - 1) 5).
  pose proof (Nat.mod_upper_bound (i + len + 1 - 1) 5). lia.
Qed.

Lemma call_prefix_counts url idx (exists_ : bool) p :
  p `prefix_of` (if exists_ then [EvCall idx; EvSkip (basename url); EvSettle idx]
                 else [EvCall idx; EvGet url]) →
  count is_settle p ≤ count is_call p ≤ 1.
Proof.
  intros [k Hk]. destruct exists_;
    destruct p as [|? [|? [|? [|? ?]]]]; simplify_eq/=; lia.
Qed.

Lemma call_prefix_first url idx (exists_ : bool) q j :
  q ++ [EvCall j] `prefix_of`
    (if exists_ then [EvCall idx; EvSkip (basename url); EvSettle idx]
     else [EvCall idx; EvGet url]) →
  q = [] ∧ j = idx.
Proof.
  intros [k Hk]. destruct exists_;
    destruct q as [|? [|? [|? [|? ?]]]]; simplify_eq/=; done.
Qed.

Lemma barrier_call L i s ts url :
  barrier_inv L i s ts → chunk_tasks L i ts →
  L !! (i + length ts) = Some url → length ts < CHUNK_SIZE →
  barrier_inv L i (downloadPdf url (i + length ts + 1) s).1
    (ts ++ [(downloadPdf url (i + length ts + 1) s).2]).
Proof.
  intros (Hmod & Hcalls & Hpast & Hnow & Hcount & Hpre & Hbar) [_ Hts] Hurl Hlen.
  pose proof (lookup_lt_Some _ _ _ Hurl) as HL.
  pose proof (in_flight_length ts) as Hfl.
  unfold barrier_inv. rewrite downloadPdf_trace, downloadPdf_task.
  set (idx := i + length ts + 1) in *.
  set (ex := existsSync (batchFolder idx, basename url) s).
  set (es := if ex then _ else _).
  assert (Hes : count is_call es = 1 ∧
                count is_settle es + pending (Task url idx (if ex then Settled else AwaitFetch)) = 1 ∧
                omap call_index es = [idx]).
  { unfold es. destruct ex; done. }
  destruct Hes as (Hc1 & Hc2 & Hc3).
  split; [done|]. split.
  { rewrite omap_app, Hcalls, Hc3, length_app. simpl.
    replace ((i + length ts) `min` length L) with (i + length ts) by lia.
    replace ((i + (length ts + 1)) `min` length L) with (S (i + length ts)) by lia.
    rewrite seq_S. f_equal. f_equal. unfold idx. lia. }
  split. { intros j Hj HjL. apply elem_of_app. left. by apply Hpast. }
  split.
  { intros k t Hk Hset. apply lookup_app_Some in Hk as [Hk|[Hge Hk]].
    - apply elem_of_app. left. by eapply Hnow.
    - apply list_lookup_singleton_Some in Hk as [_ <-]. simpl.
      apply elem_of_app. right. unfold settled in Hset. simpl in Hset.
      unfold es. destruct ex; [|done].
      do 2 apply list_elem_of_further. apply list_elem_of_here. }
  split. { rewrite !count_app, in_flight_app. lia. }
  split.
  { intros p Hp. apply prefix_app_cases in Hp as [Hp|(p' & -> & Hp')]; [by apply Hpre|].
    apply call_prefix_counts in Hp'. rewrite !count_app. unfold CHUNK_SIZE in *. lia. }
  intros p i' j Hp Hi' Hg.
  apply prefix_app_cases in Hp as [Hp|(p' & Hp & Hp')]; [by eapply Hbar|].
  destruct p' as [|y q _] using rev_ind.
  { rewrite app_nil_r in Hp. eapply Hbar; [|done|done]. by rewrite Hp. }
  rewrite app_assoc in Hp. apply app_inj_tail in Hp as [-> <-].
  apply call_prefix_first in Hp' as [-> ->]. rewrite app_nil_r.
  apply Hpast; [|]; pose proof (earlier_group i (length ts) i' Hmod Hlen Hi' Hg); lia.
Qed.

Lemma barrier_resume L env i s ts k t :
  barrier_inv L i s ts → chunk_tasks L i ts → ts !! k = Some t →
  barrier_inv L i (resume (env (t_idx t)) t s).1
    (<[k := (resume (env (t_idx t)) t s).2]> ts).
Proof.
  intros (Hmod & Hcalls & Hpast & Hnow & Hcount & Hpre & Hbar) [_ Hts] Hk.
  destruct (resume_trace md5 (env (t_idx t)) t s) as (Htr & _ & Hc & Hs & Hin).
  pose proof (resume_pending (env (t_idx t)) t s) as Hpend.
  pose proof (in_flight_insert ts k t (resume (env (t_idx t)) t s).2 Hk) as Hfl.
  set (es := events_since _ _) in *.
  unfold barrier_inv. rewrite Htr.
  split; [done|]. split.
  { by rewrite omap_app, (count_call_omap es Hc), app_nil_r, length_insert. }
  split. { intros j Hj HjL. apply elem_of_app. left. by apply Hpast. }
  split.
  { intros k' t' Hk' Hset. destruct (decide (k' = k)) as [->|Hne].
    - rewrite list_lookup_insert_eq in Hk' by (by eapply lookup_lt_Some).
      injection Hk' as <-.
      destruct (resume_same_call md5 (env (t_idx t)) t s) as [_ ->].
      apply elem_of_app. apply pending_0 in Hset.
      destruct (decide (pending t = 0)) as [H0|H0].
      + left. eapply Hnow; [done|]. by apply pending_0.
      + right. apply Hin. lia.
    - rewrite list_lookup_insert_ne in Hk' by done.
      apply elem_of_app. left. by eapply Hnow. }
  split. { rewrite !count_app. lia. }
  split.
  { intros p Hp. apply prefix_app_cases in Hp as [Hp|(p' & -> & Hp')]; [by apply Hpre|].
    pose proof (count_prefix is_call _ _ Hp').
    pose proof (count_prefix is_settle _ _ Hp').
    pose proof (Hpre (trace s) (reflexivity _)).
    rewrite !count_app. lia. }
  intros p i' j Hp Hi' Hg. eapply Hbar; [|done|done].
  eapply snoc_prefix_no_call; [|done]. by apply count_call_none.
Qed.

Lemma barrier_next L i s ts :
  barrier_inv L i s ts → chunk_tasks L i ts → Forall settled ts →
  i < length L → length ts = length (slice i (i + CHUNK_SIZE) L) →
  barrier_inv L (i + CHUNK_SIZE) s [].
Proof.
  intros (Hmod & Hcalls & Hpast & Hnow & Hcount & Hpre & Hbar) [_ Hts] Hset Hi Hlen.
  rewrite slice_length in Hlen. unfold barrier_inv.
  split.
  { unfold CHUNK_SIZE in *. pose proof (Nat.div_mod_eq i 5).
    pose proof (Nat.div_mod_eq (i + 5) 5). pose proof (Nat.mod_upper_bound (i + 5) 5).
    lia. }
  split. { rewrite Hcalls. simpl. f_equal. lia. }
  split.
  { intros j Hj HjL. destruct (decide (j ≤ i)) as [Hle|Hgt]; [apply Hpast; lia|].
    destruct (lookup_lt_is_Some_2 ts (j - i - 1)) as [t Ht]; [lia|].
    destruct (Hts _ _ Ht) as [Hidx _].
    replace j with (t_idx t) by lia. eapply Hnow; [done|].
    by eapply Forall_lookup_1 in Hset. }
  split. { intros k t Hk. by rewrite lookup_nil in Hk. }
  split. { rewrite Hcount, in_flight_settled by done. done. }
  done.
Qed.

Lemma barrier_start L e s : barrier_inv L 0 (start_state e s) [].
Proof.
  unfold barrier_inv, start_state. simpl.
  split; [done|]. split; [by destruct (page e)|].
  split; [intros j; lia|]. split; [intros k t Hk; by rewrite lookup_nil in Hk|].
  split; [by destruct (page e)|]. split.
  - intros p [k Hk]. unfold CHUNK_SIZE.
    destruct (page e); destruct p as [|? [|? ?]]; simplify_eq/=; lia.
  - intros p i' j [k Hk].
    destruct (page e); destruct p as [|? [|? ?]]; simplify_eq/=.
Qed.

End Barrier.

Lemma run_calls_and_settles md5 e s :
  let L := pdfLinks (page e) in
  let tr := trace (downloadAllPdfs md5 e s) in
  omap call_index tr = seq 1 (length L) ∧
  (∀ i, 1 ≤ i ≤ length L → EvSettle i ∈ tr) ∧
  (∀ p, p `prefix_of` tr →
        count is_settle p ≤ count is_call p ≤ count is_settle p + CHUNK_SIZE) ∧
  (∀ p i j, p ++ [EvCall j] `prefix_of` tr → 1 ≤ i →
            group_of i < group_of j → EvSettle i ∈ p).
Proof.
  intros L tr. unfold tr. rewrite downloadAllPdfs_eq. simpl.
  destruct (run_ind md5 (barrier_inv L) e s)
    as (j & Hj & _ & Hcalls & Hpast & _ & Hcount & Hpre & Hbar).
  - intros. by apply barrier_call.
  - intros. by apply barrier_resume.
  - intros. by eapply barrier_next.
  - apply barrier_start.
  - fold L in Hj. simpl in Hcalls. rewrite Nat.add_0_r in Hcalls.
    split.
    { rewrite omap_app, Hcalls. simpl. rewrite app_nil_r. f_equal. lia. }
    split.
    { intros i Hi. apply elem_of_app. left. apply Hpast; lia. }
    split.
    { intros p Hp. apply prefix_app_cases in Hp as [Hp|(p' & -> & Hp')]; [by apply Hpre|].
      pose proof (Hpre (trace (loop_end md5 e s)) (reflexivity _)).
      destruct Hp' as [k Hk]. rewrite !count_app.
      destruct p' as [|? [|? ?]]; simplify_eq/=; lia. }
    intros p i i' Hp Hi Hg. eapply Hbar; [|done|done].
    eapply snoc_prefix_no_call; [|done].
    intros Hin. apply list_elem_of_singleton in Hin. done.
Qed.

(** C9: the calls of [downloadPdf] are made in the order of the sequence,
    one per link, and each of them settles; at every moment of a run between
    zero and five calls are in flight; and when the call for a position is
    made, the calls of every earlier chunk of five have all settled. *)
Theorem chunks_of_five_with_barrier md5 e s :
  let L := pdfLinks (page e) in
  let tr := trace (downloadAllPdfs md5 e s) in
  omap call_index tr = seq 1 (length L) ∧
  (∀ i, 1 ≤ i ≤ length L → EvSettle i ∈ tr) ∧
  (∀ p, p `prefix_of` tr →
        count is_settle p ≤ count is_call p ≤ count is_settle p + CHUNK_SIZE) ∧
  (∀ p i j, p ++ [EvCall j] `prefix_of` tr → 1 ≤ i →
            group_of i < group_of j → EvSettle i ∈ p).
Proof. apply run_calls_and_settles. Qed.

Lemma chunks_of_five_with_barrier_witness :
  let tr := trace (downloadAllPdfs sample_md5 six_links empty_disk) in
  count is_call (take 10 tr) = count is_settle (take 10 tr) + 5 ∧
  EvSettle 1 ∈ take 30 tr.
Proof.
  destruct (chunks_of_five_with_barrier sample_md5 six_links empty_disk)
    as (_ & _ & _ & Hbar).
  split; [reflexivity|].
  apply (Hbar (take 30 _) 1 6).
  - exists [EvGet "https://www.archives.gov/files/6.pdf"; EvDone "6.pdf";
            EvHash ("Batch_1", "6.pdf"); EvSaveChecksums; EvSettle 6; EvSaveIndex].
    reflexivity.
  - lia.
  - vm_compute. lia.
Defined.

(** ** The outcome of a run, position by position *)

Section Outcome.

Variable md5 : bytes → string.
Variable e : run_env.
Variable s0 : state.

Local Abbreviation resume := (downloadPdf_resume md5).

Lemma saved_hashed r body : saved r = Some body → hashed r = Some body.
Proof. unfold saved, recorded. repeat case_match; congruence. Qed.

Lemma no_record_frame n s s' : same_for n s s' → no_record n s → no_record n s'.
Proof.
  intros (_ & _ & Hi & _) Hno en Hen Hn. apply (Hno en); [|done]. by apply Hi.
Qed.

Lemma not_yet_frame url idx s s' :
  same_for (basename url) s s' → not_yet s0 s url idx → not_yet s0 s' url idx.
Proof.
  intros Hsame (Hf & Hc & Hno). destruct Hsame as (Hf' & Hc' & Hrest) eqn:E.
  split; [by rewrite Hf'|]. split; [by rewrite Hc'|].
  by eapply no_record_frame.
Qed.

Lemma pos_inv_frame url idx st s s' :
  same_for (basename url) s s' →
  pos_inv md5 e s0 s url idx st → pos_inv md5 e s0 s' url idx st.
Proof.
  intros Hsame. pose proof Hsame as (Hf & Hc & Hi & Hst & Htr).
  destruct st as [[]|]; simpl.
  - intros [H0 Hny]. split; [done|]. by eapply not_yet_frame.
  - intros (H0 & Hny & Hr). split; [done|]. split; [|done]. by eapply not_yet_frame.
  - intros (H0 & Hcs & Hno & body & Hw & Hbody). split; [done|].
    split; [by rewrite Hc|]. split; [by eapply no_record_frame|].
    exists body. by rewrite Hf.
  - destruct (files s0 !! _); [by apply not_yet_frame|].
    intros (Hfile & Hcs & Hen & Hsv & Herr).
    split; [by rewrite Hf|]. split; [by rewrite Hc|].
    split; [intros en Hn; rewrite (Hi en Hn); by apply Hen|].
    split; [|auto].
    intros body Hsaved. destruct Hst as [-> | ->]; [by apply Hsv|].
    by rewrite Hcs, (saved_hashed _ _ Hsaved).
  - by apply not_yet_frame.
Qed.

Lemma resume_same_for r t s n :
  t_fileName t ≠ n → same_for n s (resume r t s).1.
Proof.
  intros Hne.
  destruct (resume_effects md5 r t s) as (_ & _ & Hf & Hc & Hcf & Hi).
  destruct (resume_trace md5 r t s) as (Htr & _).
  assert (Hc' : checksums (resume r t s).1 !! n = checksums s !! n).
  { destruct Hc as [->|[d ->]]; [done|]. by rewrite lookup_insert_ne. }
  split.
  { intros d. destruct Hf as [->|[b ->]]; [done|].
    rewrite lookup_insert_ne; [done|]. unfold t_filePath. congruence. }
  split; [done|]. split.
  { intros en Hn. destruct Hi as [->|(en' & Hn' & ->)]; [done|].
    rewrite elem_of_app, list_elem_of_singleton. split; [|auto].
    intros [?| ->]; [done | congruence]. }
  split.
  { unfold stored_checksums. destruct Hcf as [->| ->]; [by left | right; done]. }
  intros ev Hev. rewrite Htr. apply elem_of_app. by left.
Qed.

Lemma call_same_for url idx s n : same_for n s (downloadPdf url idx s).1.
Proof.
  destruct (downloadPdf_effects url idx s) as (Hf & Hcf & _ & Hc & Hi & _).
  unfold same_for, stored_checksums. rewrite Hf, Hcf, Hc, Hi, downloadPdf_trace.
  split; [done|]. split; [done|]. split; [done|]. split; [by left|].
  intros ev Hev. apply elem_of_app. by left.
Qed.

Lemma no_record_entry n s en :
  no_record n s → e_fileName en = n →
  ∀ en', e_fileName en' = n → (en' ∈ indexData s ++ [en] ↔ Some en = Some en').
Proof.
  intros Hno Hn en' Hn'. rewrite elem_of_app, list_elem_of_singleton. split.
  - intros [Hin| ->]; [by destruct (Hno en' Hin) | done].
  - intros [= ->]. by right.
Qed.

Lemma no_record_none n s :
  no_record n s → ∀ en, e_fileName en = n → (en ∈ indexData s ↔ None = Some en).
Proof. intros Hno en Hn. split; [intros Hin; by destruct (Hno en Hin) | done]. Qed.

(** The resumption of the call of a position, on that position. *)
Lemma own_resume url idx g s :
  store_inv s0 s → pos_inv md5 e s0 s url idx (Some g) →
  store_inv s0 (resume (responses e idx) (Task url idx g) s).1 ∧
  pos_inv md5 e s0 (resume (responses e idx) (Task url idx g) s).1 url idx
    (Some (t_stage (resume (responses e idx) (Task url idx g) s).2)).
Proof.
  intros Hst. unfold pos_inv, outcome, not_yet, downloadPdf_resume, failed,
    generateChecksum, t_filePath, t_fileName, entry_of.
  assert (Herr : ∀ tr, EvError (basename url) ∈ (tr ++ [EvError (basename url)]) ++ [EvSettle idx]).
  { intros tr. rewrite !elem_of_app, !list_elem_of_singleton. auto. }
  destruct g; simpl.
  - intros (H0 & Hf & Hc & Hno). destruct (r_fetch (responses e idx)) as [body|] eqn:Ef; simpl.
    + eauto 10.
    + assert (left_on_disk (responses e idx) = None ∧ hashed (responses e idx) = None ∧ recorded (responses e idx) = None ∧
              saved (responses e idx) = None) as (-> & -> & -> & ->).
      { unfold saved, recorded, hashed, written, left_on_disk. rewrite Ef.
        by repeat case_match. }
      rewrite H0. simpl. split; [done|]. split; [by rewrite Hf|].
      split; [done|]. split; [by apply no_record_none|]. done.
  - intros (H0 & (Hf & Hc & Hno) & [body Ef]). rewrite Ef.
    destruct (r_write (responses e idx)) as [|partial] eqn:Ew; simpl.
    + split; [done|]. split; [done|]. split; [done|]. split; [done|].
      exists body. split; [|apply lookup_insert_eq].
      unfold written. by rewrite Ef, Ew.
    + assert (left_on_disk (responses e idx) = partial ∧ hashed (responses e idx) = None ∧ recorded (responses e idx) = None ∧
              saved (responses e idx) = None) as (Hl & -> & -> & ->).
      { unfold saved, recorded, hashed, written, left_on_disk. rewrite Ef, Ew.
        by repeat case_match. }
      rewrite Hl. destruct partial as [partial|]; simpl; rewrite H0.
      * split; [done|]. split; [apply lookup_insert_eq|].
        split; [done|]. split; [by apply no_record_none|]. done.
      * split; [done|]. split; [by rewrite Hf|].
        split; [done|]. split; [by apply no_record_none|]. done.
  - intros (H0 & Hc & Hno & body & Hw & Hbody).
    assert (Hl : left_on_disk (responses e idx) = Some body).
    { unfold written, left_on_disk in *. repeat case_match; congruence. }
    rewrite H0, Hl.
    destruct (r_hash (responses e idx)) eqn:Eh; simpl.
    2:{ assert (hashed (responses e idx) = None ∧ recorded (responses e idx) = None ∧ saved (responses e idx) = None)
          as (-> & -> & ->).
        { unfold saved, recorded, hashed. rewrite Eh. by repeat case_match. }
        simpl. split; [done|]. split; [done|]. split; [done|].
        split; [by apply no_record_none|]. done. }
    assert (Hh : hashed (responses e idx) = Some body) by (unfold hashed; by rewrite Eh).
    rewrite Hh, Hbody. simpl.
    assert (Hst' : ∀ cf,
              (cf = checksum_file s ∨ cf = Some (<[(basename url) := md5 body]> (checksums s))) →
              ∀ name, default ∅ cf !! name = stored_checksums s0 !! name ∨
                      default ∅ cf !! name = <[(basename url) := md5 body]> (checksums s) !! name).
    { intros cf [-> | ->] name; [|by right].
      destruct (decide (name = (basename url))) as [->|Hne].
      - left. destruct (Hst (basename url)) as [?|Hn]; [done|]. unfold stored_checksums in Hn.
        by rewrite Hn.
      - rewrite lookup_insert_ne by done. apply Hst. }
    destruct (r_stat (responses e idx)) eqn:Es; repeat (progress (simpl; rewrite ?Hbody)).
    2:{ assert (recorded (responses e idx) = None ∧ saved (responses e idx) = None) as (-> & ->).
        { unfold saved, recorded. rewrite Es. by repeat case_match. }
        simpl. split; [exact (Hst' (checksum_file s) (or_introl eq_refl))|]. split; [done|].
        split; [apply lookup_insert_eq|].
        split; [by apply no_record_none|]. done. }
    assert (Hr : recorded (responses e idx) = Some body) by (unfold recorded; by rewrite Es).
    rewrite Hr. repeat (progress (simpl; rewrite ?Hbody)).
    destruct (r_save (responses e idx)) eqn:Ev; repeat (progress (simpl; rewrite ?Hbody)).
    + assert (Hs : saved (responses e idx) = Some body) by (unfold saved; by rewrite Ev).
      rewrite Hs.
 split; [exact (Hst' (Some _) (or_intror eq_refl))|]. split; [done|].
      split; [apply lookup_insert_eq|].
      split; [by apply no_record_entry|].
      split; [|done]. intros ? [= <-]. unfold stored_checksums. simpl.
      apply lookup_insert_eq.
    + assert (Hs : saved (responses e idx) = None) by (unfold saved; by rewrite Ev).
      rewrite Hs. split; [exact (Hst' (checksum_file s) (or_introl eq_refl))|]. split; [done|].
      split; [apply lookup_insert_eq|].
      split; [by apply no_record_entry|]. done.
  - done.
Qed.

(** *** The invariant of a run over links with distinct file names *)

Hypothesis distinct_names : NoDup (basename <$> pdfLinks (page e)).

Lemma names_differ j j' url url' :
  pdfLinks (page e) !! j = Some url → pdfLinks (page e) !! j' = Some url' →
  j ≠ j' → basename url ≠ basename url'.
Proof.
  intros Hj Hj' Hne Heq. apply Hne.
  eapply (NoDup_lookup _ j j' (basename url) distinct_names).
  - by rewrite list_lookup_fmap, Hj.
  - by rewrite list_lookup_fmap, Hj', Heq.
Qed.

Lemma stage_at_call_other i ts t j :
  j ≠ i + length ts → stage_at i (ts ++ [t]) j = stage_at i ts j.
Proof.
  intros Hne. unfold stage_at. case_decide; [done|].
  destruct (decide (j - i < length ts)).
  - by rewrite lookup_app_l.
  - rewrite !lookup_ge_None_2; [done| |]; rewrite ?length_app; simpl; lia.
Qed.

Lemma stage_at_call i ts t :
  stage_at i ts (i + length ts) = None ∧
  stage_at i (ts ++ [t]) (i + length ts) = Some (t_stage t).
Proof.
  unfold stage_at. rewrite !decide_False by lia.
  replace (i + length ts - i) with (length ts) by lia.
  split; [by rewrite lookup_ge_None_2 by lia|].
  by rewrite list_lookup_middle by done.
Qed.

Lemma stage_at_resume_other i ts k t' j :
  j ≠ i + k → stage_at i (<[k := t']> ts) j = stage_at i ts j.
Proof.
  intros Hne. unfold stage_at. case_decide; [done|].
  rewrite list_lookup_insert_ne by lia. done.
Qed.

Lemma stage_at_resume i ts k t t' :
  ts !! k = Some t →
  stage_at i ts (i + k) = Some (t_stage t) ∧
  stage_at i (<[k := t']> ts) (i + k) = Some (t_stage t').
Proof.
  intros Hk. unfold stage_at. rewrite !decide_False by lia.
  replace (i + k - i) with k by lia.
  rewrite Hk, list_lookup_insert_eq by (by eapply lookup_lt_Some). done.
Qed.

Lemma run_inv_call i s ts url :
  run_inv md5 e s0 i s ts → chunk_tasks (pdfLinks (page e)) i ts →
  pdfLinks (page e) !! (i + length ts) = Some url → length ts < CHUNK_SIZE →
  run_inv md5 e s0 i (downloadPdf url (i + length ts + 1) s).1
    (ts ++ [(downloadPdf url (i + length ts + 1) s).2]).
Proof.
  intros (Hst & Hen & Hpos) _ Hurl _.
  destruct (downloadPdf_effects url (i + length ts + 1) s)
    as (Hf & Hcf & _ & Hc & Hi & _).
  split; [|split].
  - intros name. unfold stored_checksums. rewrite Hcf, Hc. apply Hst.
  - by rewrite Hi.
  - intros j url' Hj. destruct (decide (j = i + length ts)) as [->|Hne].
    + assert (url' = url) as -> by congruence.
      specialize (Hpos _ _ Hurl).
      destruct (stage_at_call i ts (downloadPdf url (i + length ts + 1) s).2)
        as [Hnone ->].
      rewrite Hnone in Hpos. simpl in Hpos.
      pose proof (not_yet_frame url (i + length ts + 1) s _
                    (call_same_for url (i + length ts + 1) s _) Hpos) as Hny.
      rewrite downloadPdf_task. simpl. destruct Hpos as (Hfile & _).
      unfold existsSync. case_bool_decide as Hex; simpl.
      * rewrite Hfile in Hex. destruct Hex as [b ->]. done.
      * split; [|done]. rewrite Hfile in Hex.
        by destruct (files s0 !! _); [destruct Hex; eexists|].
    + rewrite stage_at_call_other by done.
      eapply pos_inv_frame; [apply call_same_for | by apply Hpos].
Qed.

Lemma run_inv_resume i s ts k t :
  run_inv md5 e s0 i s ts → chunk_tasks (pdfLinks (page e)) i ts →
  ts !! k = Some t →
  run_inv md5 e s0 i (resume (responses e (t_idx t)) t s).1
    (<[k := (resume (responses e (t_idx t)) t s).2]> ts).
Proof.
  intros (Hst & Hen & Hpos) [_ Hts] Hk.
  destruct (Hts k t Hk) as [Hidx Hurl].
  destruct (stage_at_resume i ts k t (resume (responses e (t_idx t)) t s).2 Hk)
    as [Hbefore Hafter].
  pose proof (Hpos _ _ Hurl) as Hown. rewrite Hbefore in Hown.
  replace (i + k + 1) with (t_idx t) in Hown by done.
  destruct (own_resume (t_url t) (t_idx t) (t_stage t) s Hst Hown) as [Hst' Hown'].
  assert (Ht : Task (t_url t) (t_idx t) (t_stage t) = t) by by destruct t.
  rewrite Ht in Hst', Hown'.
  split; [done|]. split.
  - destruct Hen as [Hnd Hen].
    destruct (resume_index md5 (responses e (t_idx t)) t s)
      as [->|(Hg & en' & Hn' & ->)]; [done|].
    rewrite Hg in Hown. destruct Hown as (_ & _ & Hno & _). split.
    + apply NoDup_app. split; [done|]. split; [|apply NoDup_singleton].
      intros en Hin ->%list_elem_of_singleton. by apply (Hno en').
    + intros en [?|Hin]%elem_of_app; [auto|].
      apply list_elem_of_singleton in Hin as ->. rewrite Hn'.
      unfold t_fileName. apply list_elem_of_fmap_2. by eapply list_elem_of_lookup_2.
  - intros j url' Hj. destruct (decide (j = i + k)) as [->|Hne].
    + assert (url' = t_url t) as -> by congruence.
      rewrite Hafter. by replace (i + k + 1) with (t_idx t).
    + rewrite stage_at_resume_other by done.
      eapply pos_inv_frame; [|by apply Hpos].
      apply resume_same_for. unfold t_fileName.
      by apply (names_differ (i + k) j).
Qed.

Lemma run_inv_next i s ts :
  run_inv md5 e s0 i s ts → chunk_tasks (pdfLinks (page e)) i ts →
  Forall settled ts → i < length (pdfLinks (page e)) →
  length ts = length (slice i (i + CHUNK_SIZE) (pdfLinks (page e))) →
  run_inv md5 e s0 (i + CHUNK_SIZE) s [].
Proof.
  intros (Hst & Hen & Hpos) _ Hset Hi Hlen. rewrite slice_length in Hlen.
  split; [done|]. split; [done|].
  intros j url Hj. specialize (Hpos j url Hj).
  pose proof (lookup_lt_Some _ _ _ Hj) as HjL.
  replace (stage_at (i + CHUNK_SIZE) [] j) with (stage_at i ts j); [done|].
  unfold stage_at, CHUNK_SIZE in *. repeat case_decide; try done; try lia.
  - destruct (lookup_lt_is_Some_2 ts (j - i)) as [t Ht]; [lia|].
    rewrite Ht. simpl. f_equal. by eapply Forall_lookup_1 in Hset.
  - rewrite lookup_nil. rewrite lookup_ge_None_2 by lia. done.
Qed.

Lemma run_inv_start : run_inv md5 e s0 0 (start_state e s0) [].
Proof.
  split; [|split].
  - intros name. by left.
  - split; [apply NoDup_nil_2|]. intros en Hin. by apply elem_of_nil in Hin.
  - intros j url Hj. unfold stage_at. rewrite decide_False by lia.
    rewrite lookup_nil. simpl. split; [done|]. split; [done|].
    intros en Hin. by apply elem_of_nil in Hin.
Qed.

(** When the loop ends every position has been dealt with. *)
Lemma run_inv_end :
  store_inv s0 (loop_end md5 e s0) ∧
  (NoDup (indexData (loop_end md5 e s0)) ∧
   ∀ en, en ∈ indexData (loop_end md5 e s0) →
         e_fileName en ∈ basename <$> pdfLinks (page e)) ∧
  ∀ j url, pdfLinks (page e) !! j = Some url →
           pos_inv md5 e s0 (loop_end md5 e s0) url (j + 1) (Some Settled).
Proof.
  destruct (run_ind md5 (run_inv md5 e s0) e s0) as (i & Hi & Hst & Hen & Hpos).
  - intros. by apply run_inv_call.
  - intros. by apply run_inv_resume.
  - intros. by eapply run_inv_next.
  - apply run_inv_start.
  - split; [done|]. split; [done|]. intros j url Hj.
    specialize (Hpos j url Hj). pose proof (lookup_lt_Some _ _ _ Hj).
    unfold stage_at in Hpos. by rewrite decide_True in Hpos by lia.
Qed.

End Outcome.

(** ** Failures and the manifest *)

Section Isolation.

Variable md5 : bytes → string.



Lemma saved_Some r body :
  saved r = Some body →
  left_on_disk r = Some body ∧ hashed r = Some body ∧ recorded r = Some body.
Proof.
  unfold saved, recorded, hashed, written, left_on_disk.
  repeat case_match; try done; intros; simplify_eq; done.
Qed.

(** The state after the run, position by position. *)
Lemma run_outcome e s j url :
  NoDup (basename <$> pdfLinks (page e)) →
  pdfLinks (page e) !! j = Some url →
  pos_inv md5 e s (downloadAllPdfs md5 e s) url (j + 1) (Some Settled).
Proof.
  intros Hnd Hj. destruct (run_inv_end md5 e s Hnd) as (_ & _ & Hpos).
  specialize (Hpos j url Hj). rewrite downloadAllPdfs_eq.
  eapply pos_inv_frame; [|exact Hpos].
  unfold same_for, stored_checksums. simpl.
  split; [done|]. split; [done|]. split; [done|]. split; [by left|].
  intros ev Hev. apply elem_of_app. by left.
Qed.



End Isolation.


Section Manifest.

Variable md5 : bytes → string.



End Manifest.


(** ** Partial files *)

Section Partial.

Variable md5 : bytes → string.

Local Abbreviation resume := (downloadPdf_resume md5).





End Partial.



(** * Further properties of the code *)

(** ** File names *)

Lemma list_ascii_app a b :
  String.list_ascii_of_string (a +:+ b)
  = String.list_ascii_of_string a ++ String.list_ascii_of_string b.
Proof. induction a as [|c a IH]; simpl; [done|]. by rewrite IH. Qed.

Lemma string_of_list_app l k :
  String.string_of_list_ascii (l ++ k)
  = String.string_of_list_ascii l +:+ String.string_of_list_ascii k.
Proof. induction l as [|c l IH]; simpl; [done|]. by rewrite IH. Qed.

Lemma string_append_assoc a b c : (a +:+ b) +:+ c = a +:+ (b +:+ c).
Proof.
  induction a as [|x a IH]; [done|].
  change (String x ((a +:+ b) +:+ c) = String x (a +:+ (b +:+ c))). by f_equal.
Qed.

Lemma until_slash_no_slash l : "/"%char ∉ until_slash l.
Proof.
  induction l as [|c l IH]; simpl; [apply not_elem_of_nil|].
  unfold is_slash. case_bool_decide as Hc; [apply not_elem_of_nil|].
  intros [?|?]%elem_of_cons; [by subst | done].
Qed.

Lemma until_slash_app_slash a b : until_slash (a ++ "/"%char :: b) = until_slash a.
Proof.
  induction a as [|c a IH]; simpl; [done|].
  destruct (is_slash c); [done|]. by rewrite IH.
Qed.

(** X1: whatever the URL, the file name [path.basename] yields contains no
    slash, so the path built from it names an entry of the batch folder
    itself. *)
Theorem basename_has_no_slash url :
  "/"%char ∉ String.list_ascii_of_string (basename url).
Proof.
  unfold basename. rewrite String.list_ascii_of_string_of_list_ascii.
  rewrite list_elem_of_In, <- in_rev, <- list_elem_of_In.
  apply until_slash_no_slash.
Qed.

Lemma basename_pdf stem :
  basename (stem +:+ ".pdf") =
  String.string_of_list_ascii
    (rev (until_slash (rev (String.list_ascii_of_string stem)))) +:+ ".pdf".
Proof.
  unfold basename. rewrite list_ascii_app. simpl String.list_ascii_of_string at 2.
  rewrite rev_app_distr. simpl. rewrite !string_of_list_app. simpl.
  by rewrite !string_append_assoc.
Qed.

Lemma basename_prefixed host stem :
  String.prefix "/" (stem +:+ ".pdf") = true →
  basename (host +:+ stem +:+ ".pdf") = basename (stem +:+ ".pdf").
Proof.
  intros Hslash.
  assert (∃ rest, stem = String "/" rest) as [rest ->].
  { apply String.prefix_correct in Hslash.
    destruct stem as [|c stem]; [discriminate|].
    change (String c (String.substring 0 0 (stem +:+ ".pdf")) = "/") in Hslash.
    injection Hslash as -> _. by eexists. }
  replace (host +:+ String "/" rest +:+ ".pdf")
    with ((host +:+ String "/" rest) +:+ ".pdf") by (by rewrite string_append_assoc).
  rewrite !basename_pdf. do 2 f_equal. f_equal.
  rewrite list_ascii_app. simpl. rewrite rev_app_distr. simpl.
  rewrite <- app_assoc. simpl. by rewrite !until_slash_app_slash.
Qed.

(** X2: for every [href] the selector matches (it ends in [.pdf]), the file
    name of the link [getPdfLinks] returns ends in [.pdf] too, and it is the
    last segment of the [href] itself, whether or not the host was
    prepended. *)
Theorem matched_link_file_name href :
  matched href →
  basename (absolute href) = basename href ∧ matched (basename href).
Proof.
  intros [stem ->]. split.
  - unfold absolute. destruct (String.prefix "/" (stem +:+ ".pdf")) eqn:Hp; [|done].
    by apply basename_prefixed.
  - rewrite basename_pdf. by eexists.
Qed.

Lemma matched_link_file_name_witness :
  basename (absolute "/files/research/jfk/104-10003.pdf") = "104-10003.pdf".
Proof.
  rewrite (proj1 (matched_link_file_name "/files/research/jfk/104-10003.pdf"
                    (ex_intro _ "/files/research/jfk/104-10003" eq_refl))).
  reflexivity.
Defined.

(** ** Batch folders *)

Lemma batchFolder_prefix idx : String.prefix "Batch_" (batchFolder idx) = true.
Proof.
  apply String.prefix_correct. unfold batchFolder.
  generalize (pretty (batchNumber idx)). intros x. simpl.
  destruct x; reflexivity.
Qed.

(** X3: a folder created by [getBatchFolder] is one that [verifyChecksums]
    searches (its name starts with [Batch_]), and two positions get the same
    folder exactly when they have the same quotient by 500. *)
Theorem batch_folders_are_searched_and_distinct :
  (∀ idx, String.prefix "Batch_" (batchFolder idx) = true) ∧
  (∀ i j, batchFolder i = batchFolder j ↔ i / batchSize = j / batchSize).
Proof.
  split; [apply batchFolder_prefix|].
  intros i j. unfold batchFolder, batchNumber. split.
  - intros H. apply (inj (String.append "Batch_")) in H.
    apply (inj pretty) in H. lia.
  - by intros ->.
Qed.

(** X4: of the positions [1 .. n] of a run at most 500 are assigned to one
    folder, and at most 499 to [Batch_1]. *)
Theorem batch_folder_capacity n k :
  length (filter (λ idx, batchNumber idx = k) (seq 1 n)) ≤ 500 ∧
  length (filter (λ idx, batchNumber idx = 1) (seq 1 n)) ≤ 499.
Proof.
  assert (Hlen : ∀ k' lo len,
            (∀ idx, 1 ≤ idx → batchNumber idx = k' → lo ≤ idx < lo + len) →
            length (filter (λ idx, batchNumber idx = k') (seq 1 n)) ≤ len).
  { intros k' lo len Hin.
    cut (length (filter (λ idx, batchNumber idx = k') (seq 1 n)) ≤ length (seq lo len));
      [by rewrite length_seq|].
    apply submseteq_length, NoDup_submseteq.
    - apply NoDup_filter, NoDup_seq.
    - intros idx [Hk Hidx]%list_elem_of_filter. apply elem_of_seq in Hidx.
      apply elem_of_seq. apply Hin; [lia | done]. }
  split.
  - apply (Hlen k (500 * (k - 1))). intros idx _. unfold batchNumber, batchSize.
    pose proof (Nat.div_mod_eq idx 500). pose proof (Nat.mod_upper_bound idx 500).
    lia.
  - apply (Hlen 1 1). intros idx Hidx. unfold batchNumber, batchSize.
    pose proof (Nat.div_mod_eq idx 500). pose proof (Nat.mod_upper_bound idx 500).
    lia.
Qed.

(** ** Runs: what is already there *)

Section MoreRuns.

Variable md5 : bytes → string.

Local Abbreviation resume := (downloadPdf_resume md5).

Lemma run_keeps_any_file e s p content :
  files s !! p = Some content →
  files (downloadAllPdfs md5 e s) !! p = Some content.
Proof.
  intros Hfile. rewrite downloadAllPdfs_eq. simpl.
  destruct (run_ind md5
    (λ _ s1 ts, files s1 !! p = Some content ∧
                Forall (λ t, t_filePath t = p → settled t) ts) e s)
    as (j & _ & H1 & _); [| | | |done].
  - intros i s1 ts url (Hf & Hts) _ Hurl _.
    destruct (downloadPdf_effects url (i + length ts + 1) s1) as (Hfiles & _).
    split; [by rewrite Hfiles|].
    apply Forall_app. split; [done|]. apply Forall_singleton.
    rewrite downloadPdf_task. unfold t_filePath, t_fileName, settled. simpl.
    intros Hp.
    assert (Hex : existsSync (batchFolder (i + length ts + 1), basename url) s1 = true).
    { apply existsSync_true. rewrite Hp, Hf. by eexists. }
    by rewrite Hex.
  - intros i s1 ts k t (Hf & Hts) _ Hk.
    destruct (decide (t_filePath t = p)) as [Heq|Hne].
    + rewrite resume_settled by (eapply Forall_lookup_1 in Hts; eauto).
      simpl. rewrite list_insert_id by done. done.
    + split; [by apply resume_keeps_file|].
      apply Forall_insert; [done|]. unfold t_filePath, t_fileName in *.
      destruct (resume_same_call md5 (responses e (t_idx t)) t s1) as [-> ->]. done.
  - intros i s1 ts (Hf & _) _ _ _ _. done.
  - done.
Qed.

(** X5: no run, and no sequence of runs, changes or removes a file that is
    stored when it begins, whatever the links, the answers of the network
    and the order of the resumptions. *)
Theorem stored_files_are_never_changed es s p content :
  files s !! p = Some content →
  files (downloadAllPdfs_again md5 es s) !! p = Some content.
Proof.
  revert s. induction es as [|e es IH]; intros s Hfile; simpl; [done|].
  by apply IH, run_keeps_any_file.
Qed.

Lemma downloadPdf_dirs url idx s :
  (batchFolder idx ∈ dirs s ∧ dirs (downloadPdf url idx s).1 = dirs s) ∨
  ((batchFolder idx ∉ dirs s) ∧
   dirs (downloadPdf url idx s).1 = dirs s ++ [batchFolder idx]).
Proof.
  unfold downloadPdf, getBatchFolder, existsSync, ensureDirSync; simpl.
  destruct (decide _); simpl; destruct (bool_decide _); simpl; auto.
Qed.

Lemma run_dirs e s :
  let L := pdfLinks (page e) in
  let s' := downloadAllPdfs md5 e s in
  (dirs s `prefix_of` dirs s') ∧
  (∀ j, j < length L → batchFolder (j + 1) ∈ dirs s') ∧
  (∀ d, d ∈ dirs s' → d ∈ dirs s ∨ ∃ j, j < length L ∧ d = batchFolder (j + 1)) ∧
  (NoDup (dirs s) → NoDup (dirs s')).
Proof.
  intros L s'. unfold s'. rewrite downloadAllPdfs_eq. simpl.
  destruct (run_ind md5
    (λ i s1 ts,
       (dirs s `prefix_of` dirs s1) ∧
       (∀ j, j < i + length ts → j < length L → batchFolder (j + 1) ∈ dirs s1) ∧
       (∀ d, d ∈ dirs s1 → d ∈ dirs s ∨ ∃ j, j < length L ∧ d = batchFolder (j + 1)) ∧
       (NoDup (dirs s) → NoDup (dirs s1))) e s)
    as (i & Hi & Hpre & Hall & Hnew & Hnd).
  - intros i s1 ts url (Hpre & Hall & Hnew & Hnd) _ Hurl _.
    pose proof (lookup_lt_Some _ _ _ Hurl) as HL. fold L in HL.
    rewrite length_app. simpl.
    destruct (downloadPdf_dirs url (i + length ts + 1) s1) as [[Hin ->]|[Hnin ->]].
    + split; [done|]. split; [|done].
      intros j Hj HjL. destruct (decide (j = i + length ts)) as [->|]; [done|].
      apply Hall; lia.
    + split; [by apply prefix_app_r|]. split; [|split].
      * intros j Hj HjL. apply elem_of_app.
        destruct (decide (j = i + length ts)) as [->|]; [right; set_solver|].
        left. apply Hall; lia.
      * intros d [Hd|Hd]%elem_of_app; [auto|].
        apply list_elem_of_singleton in Hd as ->. right. by exists (i + length ts).
      * intros Hs. apply NoDup_app. split; [auto|]. split; [|apply NoDup_singleton].
        intros d Hd ->%list_elem_of_singleton. done.
  - intros i s1 ts k t HK _ Hk. rewrite length_insert.
    destruct (resume_effects md5 (responses e (t_idx t)) t s1) as (-> & _). done.
  - intros i s1 ts (Hpre & Hall & Hnew & Hnd) _ _ Hi Hlen.
    rewrite slice_length in Hlen. fold L in Hlen, Hi.
    split; [done|]. split; [|done]. intros j Hj HjL. apply Hall; [|done].
    unfold CHUNK_SIZE in *. simpl in Hj. lia.
  - unfold start_state. simpl. split; [done|]. split; [intros j; simpl; lia|].
    split; [auto | done].
  - split; [done|]. split; [|done]. intros j Hj. apply Hall; [|done].
    simpl. fold L in Hi. lia.
Qed.

(** X6: a run creates the batch folder of every position it calls, whether
    the resource is then skipped, downloaded or fails; it keeps the
    directories that were there, in their order, adds each new folder once,
    and adds nothing but batch folders of its positions. *)
Theorem batch_folders_are_created e s :
  let L := pdfLinks (page e) in
  let s' := downloadAllPdfs md5 e s in
  (dirs s `prefix_of` dirs s') ∧
  (∀ j, j < length L → batchFolder (j + 1) ∈ dirs s') ∧
  (∀ d, d ∈ dirs s' → d ∈ dirs s ∨ ∃ j, j < length L ∧ d = batchFolder (j + 1)) ∧
  (NoDup (dirs s) → NoDup (dirs s')).
Proof. apply run_dirs. Qed.

Lemma run_on_complete_directory e s :
  (∀ j url, pdfLinks (page e) !! j = Some url →
            is_Some (files s !! (batchFolder (j + 1), basename url))) →
  let s' := downloadAllPdfs md5 e s in
  files s' = files s ∧ checksum_file s' = checksum_file s ∧
  index_file s' = Some [] ∧
  (∀ url, EvGet url ∉ trace s') ∧ (∀ p, EvHash p ∉ trace s').
Proof.
  intros Hall s'. unfold s'. rewrite downloadAllPdfs_eq. simpl.
  destruct (run_ind md5
    (λ _ s1 ts,
       files s1 = files s ∧ checksum_file s1 = checksum_file s ∧
       indexData s1 = [] ∧
       (∀ url, EvGet url ∉ trace s1) ∧ (∀ p, EvHash p ∉ trace s1) ∧
       Forall settled ts) e s)
    as (i & _ & Hf & Hcf & Hidx & Hget & Hhash & _).
  - intros i s1 ts url (Hf & Hcf & Hidx & Hget & Hhash & Hts) _ Hurl _.
    destruct (downloadPdf_effects url (i + length ts + 1) s1)
      as (-> & -> & _ & _ & -> & _).
    assert (Hex : existsSync (batchFolder (i + length ts + 1), basename url) s1 = true).
    { apply existsSync_true. rewrite Hf. by apply Hall. }
    rewrite downloadPdf_trace, downloadPdf_task, Hex.
    split; [done|]. split; [done|]. split; [done|].
    split; [|split].
    + intros u [?|Hin]%elem_of_app; [by eapply Hget|].
      repeat (apply elem_of_cons in Hin as [?|Hin]; [done|]). by apply elem_of_nil in Hin.
    + intros q [?|Hin]%elem_of_app; [by eapply Hhash|].
      repeat (apply elem_of_cons in Hin as [?|Hin]; [done|]). by apply elem_of_nil in Hin.
    + apply Forall_app. split; [done|]. by apply Forall_singleton.
  - intros i s1 ts k t (Hf & Hcf & Hidx & Hget & Hhash & Hts) _ Hk.
    rewrite resume_settled by (by eapply Forall_lookup_1 in Hts).
    simpl. by rewrite list_insert_id.
  - intros i s1 ts (Hf & Hcf & Hidx & Hget & Hhash & Hts) _ _ _ _. done.
  - unfold start_state. simpl. split; [done|]. split; [done|]. split; [done|].
    split; [|split; [|done]]; intros x; destruct (page e);
      rewrite ?elem_of_nil, ?list_elem_of_singleton; naive_solver.
  - rewrite Hidx. split; [done|]. split; [done|]. split; [done|]. split.
    + intros u [?|Hin]%elem_of_app; [by eapply Hget|].
      by apply list_elem_of_singleton in Hin.
    + intros q [?|Hin]%elem_of_app; [by eapply Hhash|].
      by apply list_elem_of_singleton in Hin.
Qed.

(** X7: when every listed resource already has a file at its path, the run
    issues no request and hashes nothing, leaves the stored files and
    [checksums.json] exactly as they are, and writes an empty manifest. *)
Theorem complete_directory_is_left_alone e s :
  (∀ j url, pdfLinks (page e) !! j = Some url →
            is_Some (files s !! (batchFolder (j + 1), basename url))) →
  let s' := downloadAllPdfs md5 e s in
  files s' = files s ∧ checksum_file s' = checksum_file s ∧
  index_file s' = Some [] ∧
  (∀ url, EvGet url ∉ trace s') ∧ (∀ p, EvHash p ∉ trace s').
Proof. apply run_on_complete_directory. Qed.

(** X8: a second run over the same listing, after a run in which every
    resource was already stored or left a file (whole or partial), fetches
    nothing and changes neither the stored files nor [checksums.json]; it
    only replaces the manifest by an empty one. *)
Theorem second_run_fetches_nothing e1 e2 s :
  NoDup (basename <$> pdfLinks (page e1)) →
  page e2 = page e1 →
  (∀ j url, pdfLinks (page e1) !! j = Some url →
            is_Some (files s !! (batchFolder (j + 1), basename url)) ∨
            is_Some (left_on_disk (responses e1 (j + 1)))) →
  let s1 := downloadAllPdfs md5 e1 s in
  let s2 := downloadAllPdfs md5 e2 s1 in
  files s2 = files s1 ∧ checksum_file s2 = checksum_file s1 ∧
  index_file s2 = Some [] ∧ (∀ url, EvGet url ∉ trace s2).
Proof.
  intros Hnd Hpage Hall s1 s2.
  destruct (run_on_complete_directory e2 s1) as (Hf & Hcf & Hidx & Hget & _); [|done].
  rewrite Hpage. intros j url Hj.
  pose proof (run_outcome md5 e1 s j url Hnd Hj) as Hpos. simpl in Hpos.
  fold s1 in Hpos.
  destruct (files s !! (batchFolder (j + 1), basename url)) as [c|] eqn:Hfile.
  - destruct Hpos as (-> & _). by eexists.
  - destruct Hpos as (-> & _).
    destruct (Hall j url Hj) as [Hs|Hs]; [rewrite Hfile in Hs; by destruct Hs | done].
Qed.

End MoreRuns.

Lemma stored_files_are_never_changed_witness :
  files (downloadAllPdfs_again sample_md5 [two_links; second_write_breaks] tampered_disk)
    !! ("Batch_1", "1.pdf") = Some [Byte.x25].
Proof.
  apply (stored_files_are_never_changed sample_md5 [two_links; second_write_breaks]
           tampered_disk ("Batch_1", "1.pdf") [Byte.x25]).
  reflexivity.
Defined.

Lemma batch_folders_are_created_witness :
  batchFolder 2 ∈ dirs (downloadAllPdfs sample_md5 second_fetch_fails empty_disk) ∧
  NoDup (dirs (downloadAllPdfs sample_md5 second_fetch_fails empty_disk)).
Proof.
  destruct (batch_folders_are_created sample_md5 second_fetch_fails empty_disk)
    as (_ & Hin & _ & Hnd).
  split; [apply (Hin 1); simpl; lia | apply Hnd; simpl; constructor].
Defined.

Lemma complete_directory_is_left_alone_witness :
  let s' := downloadAllPdfs sample_md5 first_link_only tampered_disk in
  files s' = files tampered_disk ∧ checksum_file s' = checksum_file tampered_disk ∧
  index_file s' = Some [] ∧
  (∀ url, EvGet url ∉ trace s') ∧ (∀ p, EvHash p ∉ trace s').
Proof.
  apply (complete_directory_is_left_alone sample_md5 first_link_only tampered_disk).
  intros [|j] url; simpl; intros [= <-]. vm_compute. by eexists.
Defined.

Lemma second_run_fetches_nothing_witness :
  let s1 := downloadAllPdfs sample_md5 second_write_breaks empty_disk in
  let s2 := downloadAllPdfs sample_md5 two_links s1 in
  files s2 = files s1 ∧ checksum_file s2 = checksum_file s1 ∧
  index_file s2 = Some [] ∧ (∀ url, EvGet url ∉ trace s2).
Proof.
  apply (second_run_fetches_nothing sample_md5 second_write_breaks two_links empty_disk).
  - compute_done.
  - reflexivity.
  - intros [|[|j]] url; simpl; intros [= <-]; right; vm_compute; by eexists.
Defined.

(** ** Download, then verify *)

Section RoundTrip.

Variable md5 : bytes → string.

Local Abbreviation resume := (downloadPdf_resume md5).

(** Under distinct names only the call of a position writes files of its
    name, and only into its own folder. *)
Lemma run_other_folders e s j url d :
  NoDup (basename <$> pdfLinks (page e)) →
  pdfLinks (page e) !! j = Some url → d ≠ batchFolder (j + 1) →
  files (downloadAllPdfs md5 e s) !! (d, basename url) = files s !! (d, basename url).
Proof.
  intros Hnd Hj Hd. rewrite downloadAllPdfs_eq. simpl.
  destruct (run_ind md5
    (λ _ s1 _, files s1 !! (d, basename url) = files s !! (d, basename url)) e s)
    as (i & _ & H); [| | | |done].
  - intros i s1 ts u HK _ _ _.
    destruct (downloadPdf_effects u (i + length ts + 1) s1) as (-> & _). done.
  - intros i s1 ts k t HK [_ Hts] Hk. destruct (Hts k t Hk) as [Hidx Hurl].
    destruct (resume_effects md5 (responses e (t_idx t)) t s1)
      as (_ & _ & [->|[b ->]] & _); [done|].
    rewrite lookup_insert_ne; [done|]. unfold t_filePath, t_fileName.
    intros [= Hfolder Hname]. destruct (decide (i + k = j)) as [Heq|Hne].
    + apply Hd. rewrite <- Hfolder, Hidx, Heq. done.
    + by apply (names_differ e Hnd (i + k) j (t_url t) url).
  - done.
  - done.
Qed.

(** Where verification finds a resource that this run downloaded in full. *)
Lemma run_finds_download e s j url body :
  NoDup (basename <$> pdfLinks (page e)) →
  pdfLinks (page e) !! j = Some url →
  (∀ d, files s !! (d, basename url) = None) →
  saved (responses e (j + 1)) = Some body →
  let s' := downloadAllPdfs md5 e s in
  find_file (basename url) (list_batchFolders s') s'
    = Some (batchFolder (j + 1), basename url) ∧
  files s' !! (batchFolder (j + 1), basename url) = Some body ∧
  stored_checksums s' !! basename url = Some (md5 body).
Proof.
  intros Hnd Hj Hnone Hsaved s'.
  pose proof (run_outcome md5 e s j url Hnd Hj) as Hpos. simpl in Hpos.
  fold s' in Hpos. rewrite Hnone in Hpos. destruct Hpos as (Hf & _ & _ & Hst & _).
  destruct (saved_Some _ _ Hsaved) as (Hl & _). rewrite Hl in Hf.
  split; [|split; [done | by apply Hst]].
  assert (Hin : batchFolder (j + 1) ∈ list_batchFolders s').
  { unfold list_batchFolders. apply list_elem_of_filter. split.
    - apply Is_true_true, batchFolder_prefix.
    - unfold readdirSync. apply elem_of_app. left.
      apply (run_dirs md5 e s). by eapply lookup_lt_Some. }
  apply list_elem_of_split_l in Hin as (l1 & l2 & Hl12 & Hl1).
  apply find_file_Some. exists l1, (batchFolder (j + 1)), l2.
  split; [done|]. split; [done|]. split; [by rewrite Hf|].
  intros b' Hb'. unfold s'.
  rewrite (run_other_folders e s j url b' Hnd Hj); [apply Hnone|].
  intros ->. done.
Qed.


Lemma omap_nil_Forall {A B} (f : A → option B) l :
  (∀ x, x ∈ l → f x = None) → omap f l = [].
Proof.
  induction l as [|x l IH]; intros Hall; simpl; [done|].
  rewrite (Hall x) by apply list_elem_of_here.
  apply IH. intros y Hy. apply Hall. by apply list_elem_of_further.
Qed.

(** X10: on a fresh download directory (no stored file, no
    [checksums.json]), a run over at least one link in which every download
    succeeds is followed by a verification that finds nothing to report:
    the list of problem files is empty. *)
Theorem fresh_download_verifies e s readable :
  NoDup (basename <$> pdfLinks (page e)) →
  pdfLinks (page e) ≠ [] →
  files s = ∅ → checksum_file s = None →
  (∀ idx, ∃ body, responses e idx = Response (Some body) WriteFinish true true true) →
  (∀ p, readable p = true) →
  (verifyChecksums md5 readable (downloadAllPdfs md5 e s)).2 = Completed [].
Proof.
  intros Hnd Hne Hfiles Hnocs Hfine Hread.
  set (s' := downloadAllPdfs md5 e s).
  assert (Hnone : ∀ p, files s !! p = None) by (intros p; by rewrite Hfiles).
  assert (Hpos : ∀ j url, pdfLinks (page e) !! j = Some url →
            ∃ body,
              find_file (basename url) (list_batchFolders s') s'
                = Some (batchFolder (j + 1), basename url) ∧
              files s' !! (batchFolder (j + 1), basename url) = Some body ∧
              stored_checksums s' !! basename url = Some (md5 body)).
  { intros j url Hj. destruct (Hfine (j + 1)) as [body Hresp]. exists body.
    apply run_finds_download; [done|done|auto|by rewrite Hresp]. }
  destruct (checksum_file s') as [cs|] eqn:Hcs.
  2:{ assert (∃ url, pdfLinks (page e) !! 0 = Some url) as [url H0].
      { destruct (pdfLinks (page e)) as [|url L]; [done | by exists url]. }
      destruct (Hpos 0 url H0) as (body & _ & _ & Hst).
      unfold stored_checksums in Hst. by rewrite Hcs in Hst. }
  destruct (verifyChecksums_run md5 readable s' cs Hcs Hread) as [-> _].
  f_equal. apply omap_nil_Forall. intros [f D] Hin.
  apply elem_of_map_to_list in Hin.
  assert (Hst : stored_checksums s' !! f = Some D).
  { unfold stored_checksums. by rewrite Hcs. }
  destruct (run_keeps_checksums md5 e s) as (_ & [_ Hkeep] & _).
  assert (Hsame : stored_checksums s' = stored_checksums (loop_end md5 e s)).
  { unfold s'. by rewrite downloadAllPdfs_eq. }
  rewrite Hsame in Hst.
  destruct (decide (f ∈ basename <$> pdfLinks (page e))) as [Hf|Hf].
  - apply list_elem_of_fmap in Hf as (url & -> & Hurl).
    apply list_elem_of_lookup in Hurl as [j Hj].
    destruct (Hpos j url Hj) as (body & Hfind & Hfile & Hst').
    rewrite Hsame, Hst in Hst'. injection Hst' as ->.
    unfold entry_problem. simpl. rewrite Hfind, Hfile. simpl.
    by rewrite decide_True.
  - rewrite (Hkeep f Hf) in Hst.
    unfold stored_checksums in Hst. by rewrite Hnocs in Hst.
Qed.

End RoundTrip.


Lemma fresh_download_verifies_witness :
  (verifyChecksums sample_md5 (λ _, true)
     (downloadAllPdfs sample_md5 two_links empty_disk)).2 = Completed [].
Proof.
  apply (fresh_download_verifies sample_md5 two_links empty_disk (λ _, true)).
  - compute_done.
  - simpl. discriminate.
  - reflexivity.
  - reflexivity.
  - intros idx. exists sample_body. reflexivity.
  - intros p. reflexivity.
Defined.

(** ** Verification as a whole *)

Section Verification.

Variable md5 : bytes → string.

Lemma verify_entries_disk readable entries corruptedFiles s :
  disk (verify_entries md5 readable entries corruptedFiles s).1 = disk s.
Proof.
  revert corruptedFiles s.
  induction entries as [|[fileName originalHash] rest IH]; intros cf s; simpl; [done|].
  destruct (find_file _ _ _) as [filePath|]; [|by rewrite IH].
  destruct (generateChecksum _ _ _ _) as [newHash|]; [|done].
  case_decide; by rewrite IH.
Qed.

Lemma verifyChecksums_disk readable s :
  disk (verifyChecksums md5 readable s).1 = disk s.
Proof.
  unfold verifyChecksums. simpl.
  destruct (checksum_file s) as [cs|] eqn:Hcs; simpl.
  - rewrite verify_entries_disk. unfold disk. simpl. by rewrite Hcs.
  - unfold disk. simpl. by rewrite Hcs.
Qed.

(** X11: verification only reads: whatever is on disk, and whether it runs
    to its end, returns early or is aborted by a read error, the
    directories, the stored files, [checksums.json] and [index.json] are
    afterwards what they were. *)
Theorem verification_is_read_only readable s :
  disk (verifyChecksums md5 readable s).1 = disk s.
Proof. apply verifyChecksums_disk. Qed.

(** X12: with no read error, verification ends with an empty list of problem
    files exactly when every entry of [checksums.json] has a file in a batch
    folder and the first such file hashes to the recorded digest. *)
Theorem all_intact_iff readable s cs :
  checksum_file s = Some cs → (∀ p, readable p = true) →
  (verifyChecksums md5 readable s).2 = Completed [] ↔
  ∀ fileName D, cs !! fileName = Some D →
    ∃ filePath content,
      find_file fileName (list_batchFolders s) s = Some filePath ∧
      files s !! filePath = Some content ∧ md5 content = D.
Proof.
  intros Hcs Hread.
  destruct (verifyChecksums_run md5 readable s cs Hcs Hread) as [-> _]. split.
  - intros [= Hnil] f D HfD.
    assert (Hin : (f, D) ∈ map_to_list cs) by by apply elem_of_map_to_list.
    assert (Hp : entry_problem md5 s (f, D) = None).
    { destruct (entry_problem md5 s (f, D)) as [x|] eqn:Hx; [|done].
      assert (x ∈ omap (entry_problem md5 s) (map_to_list cs)) as Hx'.
      { apply list_elem_of_omap. by exists (f, D). }
      rewrite Hnil in Hx'. by apply elem_of_nil in Hx'. }
    unfold entry_problem in Hp. simpl in Hp.
    destruct (find_file f (list_batchFolders s) s) as [p|]; [|done].
    case_decide as Hd; [|done].
    destruct (files s !! p) as [content|] eqn:Hfile; [|done].
    exists p, content. simpl in Hd. by injection Hd as ->.
  - intros Hall. f_equal. apply omap_nil_Forall. intros [f D] Hin.
    apply elem_of_map_to_list in Hin.
    destruct (Hall f D Hin) as (p & content & Hfind & Hfile & HD).
    unfold entry_problem. simpl. rewrite Hfind, Hfile. simpl.
    by rewrite decide_True by by rewrite HD.
Qed.

Lemma find_file_disk fileName s1 s2 :
  disk s1 = disk s2 →
  find_file fileName (list_batchFolders s1) s1
    = find_file fileName (list_batchFolders s2) s2.
Proof.
  unfold disk. intros [= Hd Hf Hc Hi].
  unfold list_batchFolders, readdirSync. rewrite Hd, Hc, Hi.
  generalize (filter (λ folder, String.prefix "Batch_" folder)
                (dirs s2 ++ match index_file s2 with Some _ => ["index.json"] | None => [] end
                         ++ match checksum_file s2 with
                            | Some _ => ["checksums.json"] | None => [] end)).
  intros l. induction l as [|b l IH]; simpl; [done|].
  unfold existsSync. rewrite Hf, IH. done.
Qed.

Lemma verify_entries_rejected readable entries corruptedFiles s0 s :
  disk s = disk s0 →
  (verify_entries md5 readable entries corruptedFiles s).2 = Rejected ↔
  ∃ fileName D filePath,
    (fileName, D) ∈ entries ∧
    find_file fileName (list_batchFolders s0) s0 = Some filePath ∧
    readable filePath = false.
Proof.
  revert corruptedFiles s.
  induction entries as [|[f D] rest IH]; intros cf s Hd; simpl.
  { split; [done|]. intros (? & ? & ? & []%elem_of_nil & _). }
  assert (Hfind : find_file f (list_batchFolders s) (log EvReaddir s)
                  = find_file f (list_batchFolders s0) s0).
  { rewrite <- (find_file_disk f s s0 Hd).
    generalize (list_batchFolders s). intros l. induction l; simpl; [done|].
    unfold existsSync in *. simpl. by rewrite IHl. }
  rewrite Hfind.
  destruct (find_file f (list_batchFolders s0) s0) as [p|] eqn:Hp.
  - unfold generateChecksum. destruct (readable p) eqn:Hr.
    + assert (is_Some (files s0 !! p)) as [content Hc].
      { apply find_file_Some in Hp as (? & ? & ? & _ & -> & ? & _). done. }
      assert (Hfs : files s = files s0) by (unfold disk in Hd; by simplify_eq).
      simpl. rewrite Hfs, Hc. simpl.
      case_decide.
      * rewrite IH by done. split.
        -- intros (f' & D' & p' & Hin & ?). exists f', D', p'.
           split; [by apply list_elem_of_further | done].
        -- intros (f' & D' & p' & [Heq|Hin]%elem_of_cons & Hf' & Hr').
           ++ simplify_eq; congruence.
           ++ by exists f', D', p'.
      * rewrite IH by done. split.
        -- intros (f' & D' & p' & Hin & ?). exists f', D', p'.
           split; [by apply list_elem_of_further | done].
        -- intros (f' & D' & p' & [Heq|Hin]%elem_of_cons & Hf' & Hr').
           ++ simplify_eq; congruence.
           ++ by exists f', D', p'.
    + simpl. split; [|done]. intros _. exists f, D, p.
      split; [apply list_elem_of_here | done].
  - rewrite IH by done. split.
    + intros (f' & D' & p' & Hin & ?). exists f', D', p'.
      split; [by apply list_elem_of_further | done].
    + intros (f' & D' & p' & [Heq|Hin]%elem_of_cons & Hf' & Hr').
      * simplify_eq; congruence.
      * by exists f', D', p'.
Qed.

Lemma verifyChecksums_rejected readable s cs :
  checksum_file s = Some cs →
  (verifyChecksums md5 readable s).2 = Rejected ↔
  ∃ fileName D filePath,
    cs !! fileName = Some D ∧
    find_file fileName (list_batchFolders s) s = Some filePath ∧
    readable filePath = false.
Proof.
  intros Hcs. unfold verifyChecksums. simpl. rewrite Hcs.
  set (s1 := State _ _ _ _ _ _ _).
  assert (Hd : disk s1 = disk s) by (unfold disk, s1; simpl; by rewrite Hcs).
  rewrite (verify_entries_rejected readable (map_to_list cs) [] s s1 Hd).
  split; intros (f & D & p & H1 & H2); exists f, D, p;
    (split; [by apply elem_of_map_to_list | done]).
Qed.

(** X13: nothing in [verifyChecksums] catches a rejection of
    [generateChecksum]: verification is aborted, without its closing report,
    exactly when some entry of [checksums.json] has a file in a batch folder
    that cannot be read. *)
Theorem unreadable_file_aborts_verification readable s cs :
  checksum_file s = Some cs →
  (verifyChecksums md5 readable s).2 = Rejected ↔
  ∃ fileName D filePath,
    cs !! fileName = Some D ∧
    find_file fileName (list_batchFolders s) s = Some filePath ∧
    readable filePath = false.
Proof. apply verifyChecksums_rejected. Qed.

End Verification.

Lemma all_intact_iff_witness :
  (verifyChecksums sample_md5 (λ _, true) disk_after_one_run).2 = Completed [] ↔
  ∀ fileName D, ({[ "1.pdf" := sample_md5 sample_body ]} : gmap string string)
                  !! fileName = Some D →
    ∃ filePath content,
      find_file fileName (list_batchFolders disk_after_one_run) disk_after_one_run
        = Some filePath ∧
      files disk_after_one_run !! filePath = Some content ∧
      sample_md5 content = D.
Proof.
  apply (all_intact_iff sample_md5 (λ _, true) disk_after_one_run
           {[ "1.pdf" := sample_md5 sample_body ]}).
  - reflexivity.
  - intros p. reflexivity.
Defined.

Lemma unreadable_file_aborts_verification_witness :
  (verifyChecksums sample_md5 (λ _, false) disk_after_one_run).2 = Rejected ↔
  ∃ fileName D filePath,
    ({[ "1.pdf" := sample_md5 sample_body ]} : gmap string string)
      !! fileName = Some D ∧
    find_file fileName (list_batchFolders disk_after_one_run) disk_after_one_run
      = Some filePath ∧
    false = false.
Proof.
  apply (unreadable_file_aborts_verification sample_md5 (λ _, false)
           disk_after_one_run {[ "1.pdf" := sample_md5 sample_body ]}).
  reflexivity.
Defined.

(** ** The size estimate *)



(** ** The menu *)

Section Sessions.

Variable md5 : bytes → string.

Lemma estimateTotalSize_disk page heads s :
  disk (estimateTotalSize page heads s).1 = disk s.
Proof. unfold estimateTotalSize, getPdfLinks. by destruct page. Qed.

(** X15: a session in which option 2 is never chosen, whatever else is
    typed and however it ends, leaves the directories, the stored files,
    [checksums.json] and [index.json] as they were. *)
Theorem session_without_download_is_read_only inputs s :
  (∀ x, x ∈ inputs → i_typed x ≠ "2") →
  disk (mainMenu md5 inputs s).1 = disk s.
Proof.
  revert s. induction inputs as [|x inputs IH]; intros s Hno; simpl; [done|].
  assert (Hrest : ∀ y, y ∈ inputs → i_typed y ≠ "2").
  { intros y Hy. apply Hno. by apply list_elem_of_further. }
  assert (Hx : i_typed x ≠ "2") by apply Hno, list_elem_of_here.
  repeat case_decide; try done.
  - by rewrite IH, estimateTotalSize_disk.
  - pose proof (verifyChecksums_disk md5 (i_readable x) s) as Hv.
    destruct (verifyChecksums md5 (i_readable x) s) as [s1 []]; simpl in Hv;
      [by rewrite IH | done | by rewrite IH].
  - by rewrite IH.
Qed.

(** X16: once option 4 is chosen the session is over: what is typed after
    it has no effect on the state or on how the session ends, and the menu
    is not waiting for input any more. *)
Theorem exit_ends_the_session pre x post s :
  i_typed x = "4" →
  mainMenu md5 (pre ++ x :: post) s = mainMenu md5 (pre ++ [x]) s ∧
  (mainMenu md5 (pre ++ x :: post) s).2 ≠ AtPrompt.
Proof.
  intros Hx. revert s. induction pre as [|y pre IH]; intros s; simpl.
  - rewrite Hx. simpl. done.
  - repeat case_decide; try done; try apply IH.
    destruct (verifyChecksums md5 (i_readable y) s) as [s1 []]; try done; apply IH.
Qed.

(** X17: a read error during a verification chosen from the menu ends the
    session with an uncaught rejection, not with a report of the file as a
    problem: whatever is typed afterwards is never read. *)
Theorem read_error_ends_the_session x rest s cs fileName D filePath :
  i_typed x = "3" →
  checksum_file s = Some cs → cs !! fileName = Some D →
  find_file fileName (list_batchFolders s) s = Some filePath →
  i_readable x filePath = false →
  (mainMenu md5 (x :: rest) s).2 = Uncaught ∧
  disk (mainMenu md5 (x :: rest) s).1 = disk s.
Proof.
  intros Hx Hcs HD Hfind Hr. simpl. rewrite Hx. simpl.
  assert (Hv : (verifyChecksums md5 (i_readable x) s).2 = Rejected).
  { apply (verifyChecksums_rejected md5 _ s cs Hcs).
    by exists fileName, D, filePath. }
  pose proof (verifyChecksums_disk md5 (i_readable x) s) as Hd.
  destruct (verifyChecksums md5 (i_readable x) s) as [s1 v]. simpl in *.
  by rewrite Hv.
Qed.

End Sessions.

Lemma session_without_download_is_read_only_witness :
  disk (mainMenu sample_md5 [typed "1"; typed "3"; typed "7"; verify_unreadable]
          tampered_disk).1 = disk tampered_disk.
Proof.
  apply (session_without_download_is_read_only sample_md5
           [typed "1"; typed "3"; typed "7"; verify_unreadable] tampered_disk).
  intros x Hx.
  repeat (apply elem_of_cons in Hx as [->|Hx]; [simpl; discriminate|]).
  by apply elem_of_nil in Hx.
Defined.

Lemma exit_ends_the_session_witness :
  mainMenu sample_md5 ([typed "1"] ++ typed "4" :: [typed "2"]) empty_disk
    = mainMenu sample_md5 ([typed "1"] ++ [typed "4"]) empty_disk ∧
  (mainMenu sample_md5 ([typed "1"] ++ typed "4" :: [typed "2"]) empty_disk).2
    ≠ AtPrompt.
Proof.
  apply (exit_ends_the_session sample_md5 [typed "1"] (typed "4") [typed "2"]
           empty_disk).
  reflexivity.
Defined.

Lemma read_error_ends_the_session_witness :
  (mainMenu sample_md5 (verify_unreadable :: [typed "2"]) disk_after_one_run).2
    = Uncaught ∧
  disk (mainMenu sample_md5 (verify_unreadable :: [typed "2"]) disk_after_one_run).1
    = disk disk_after_one_run.
Proof.
  apply (read_error_ends_the_session sample_md5 verify_unreadable [typed "2"]
           disk_after_one_run {[ "1.pdf" := sample_md5 sample_body ]}
           "1.pdf" (sample_md5 sample_body) ("Batch_1", "1.pdf")).
  - reflexivity.
  - reflexivity.
  - reflexivity.
  - reflexivity.
  - reflexivity.
Defined.
